(** * Interview answer scorer ([src/app/InterviewSimulator.tsx])

    A shallow embedding of [normalizeText] and [scoreAnswer] and of the
    parts of the JavaScript run time they rely on: strings
    ([toLowerCase], [replace] with a character class, [split],
    [includes]), [Set] size, and Number arithmetic ([+], [-], [*], [/],
    [Math.min], [Math.max], [Math.round]) in IEEE 754 binary64. *)

From Stdlib Require Import Bool Arith ZArith NArith QArith Qround Qpower.
From Stdlib Require Import Qreduction Qminmax Qabs List String Ascii Lia Lqa.
From Stdlib Require Import SpecFloat.
From Stdlib Require Import Permutation.
Import ListNotations.

(** ** JavaScript strings

    A string is a sequence of code units.  The embedding takes the code
    units below 256 (Basic Latin and Latin-1 Supplement), which [string]
    holds one per character; on these [toLowerCase], the classes [\w] and
    [\s] and [includes] are as ECMAScript defines them. *)
Module JsString.

Definition code (c : ascii) : N := N_of_ascii c.

Definition between (lo hi n : N) : bool := ((lo <=? n) && (n <=? hi))%N.

(** Upper-case letters below 256: A-Z, and U+00C0-U+00DE without the
    multiplication sign U+00D7.  Each has its lower-case form 32 above. *)
Definition isUpper (c : ascii) : bool :=
  between 65 90 (code c)
  || (between 192 222 (code c) && negb (code c =? 215)%N).

Definition lowerChar (c : ascii) : ascii :=
  if isUpper c then ascii_of_N (code c + 32) else c.

(** [s.toLowerCase()] *)
Fixpoint toLowerCase (s : string) : string :=
  match s with
  | EmptyString => EmptyString
  | String c s' => String (lowerChar c) (toLowerCase s')
  end.

Definition isDigit (c : ascii) : bool := between 48 57 (code c).
Definition isLowerLetter (c : ascii) : bool := between 97 122 (code c).
Definition isUpperLetter (c : ascii) : bool := between 65 90 (code c).
Definition isUnderscore (c : ascii) : bool := (code c =? 95)%N.

(** The class [\w] (no [u] or [i] flag): [A-Za-z0-9_]. *)
Definition isWordChar (c : ascii) : bool :=
  isUpperLetter c || isLowerLetter c || isDigit c || isUnderscore c.

(** The class [\s] below 256: TAB, LF, VT, FF, CR, SP and NBSP. *)
Definition isSpace (c : ascii) : bool :=
  between 9 13 (code c) || (code c =? 32)%N || (code c =? 160)%N.

(** Letters and digits, the reading of "alphanumeric" used when the
    specification is compared with [\w]. *)
Definition isAlphanumeric (c : ascii) : bool :=
  isUpperLetter c || isLowerLetter c || isDigit c.

(** [s.replace(/[cls]/g, '')] for a one-character class [cls]: every
    character in the class is deleted, the others stay in order. *)
Fixpoint removeAll (cls : ascii -> bool) (s : string) : string :=
  match s with
  | EmptyString => EmptyString
  | String c s' =>
      if cls c then removeAll cls s' else String c (removeAll cls s')
  end.

(** [s.split(/\s+/)]: [cur] is the piece being read, in reverse; [inRun]
    tells that the previous character was part of a separator. *)
Fixpoint revString (acc s : string) : string :=
  match s with
  | EmptyString => acc
  | String c s' => revString (String c acc) s'
  end.

Fixpoint splitFrom (cur : string) (inRun : bool) (s : string) : list string :=
  match s with
  | EmptyString => [revString EmptyString cur]
  | String c s' =>
      if isSpace c then
        if inRun then splitFrom EmptyString true s'
        else revString EmptyString cur :: splitFrom EmptyString true s'
      else splitFrom (String c cur) false s'
  end.

Definition splitSpaces (s : string) : list string :=
  splitFrom EmptyString false s.

(** [Boolean(s)] for a string: false only for the empty string. *)
Definition truthy (s : string) : bool :=
  match s with EmptyString => false | _ => true end.

(** [s.includes(k)]: [k] starts at some position of [s]. *)
Fixpoint includes (s k : string) : bool :=
  String.prefix k s
  || match s with
     | EmptyString => false
     | String _ s' => includes s' k
     end.

(** [new Set(l).size] *)
Definition setSize (l : list string) : nat :=
  List.length (nodup string_dec l).

(** [k] occurs in [s] as a contiguous piece. *)
Definition Substring (k s : string) : Prop :=
  exists a b, s = String.append a (String.append k b).

End JsString.

(** ** JavaScript Numbers

    A Number is an IEEE 754 binary64 value.  A finite value is carried as
    the rational it denotes; every arithmetic operation computes the exact
    rational result and rounds it to the nearest binary64 value, ties to
    even ([round64]), which is how IEEE 754 defines [+], [-], [*] and [/].
    The two zeros are one value here: the scorer never divides by a
    computed zero, the only place where their sign could be observed. *)
Module JsNumber.
Local Open Scope Q_scope.

Inductive number : Type :=
| NaN
| Inf (negative : bool)
| Fin (q : Q).

Definition pow2 (e : Z) : Q := Qpower 2 e.

(** For [q > 0], the exponent [e] with [2^e <= q < 2^(e+1)]. *)
Definition ilog2 (q : Q) : Z :=
  let e0 := (Z.log2 (Qnum q) - Z.log2 (Zpos (Qden q)))%Z in
  if Qle_bool (pow2 e0) q then e0 else (e0 - 1)%Z.

(** Exponent of the last place: 53 significant bits, and never below
    the subnormal spacing [2^-1074]. *)
Definition cexp (q : Q) : Z := Z.max (ilog2 q - 52) (-1074).

(** Nearest integer, ties to the even one. *)
Definition roundHalfEven (q : Q) : Z :=
  let f := Qfloor q in
  match Qcompare (q - inject_Z f) (1 # 2) with
  | Lt => f
  | Gt => (f + 1)%Z
  | Eq => if Z.even f then f else (f + 1)%Z
  end.

Definition roundPos (q : Q) : Q :=
  let e := cexp q in
  inject_Z (roundHalfEven (q / pow2 e)) * pow2 e.

(** Rounding to the binary64 grid, exponent unbounded above. *)
Definition rnd (q : Q) : Q :=
  match Qnum q with
  | Z0 => 0
  | Zpos _ => Qred (roundPos q)
  | Zneg _ => Qred (- roundPos (- q))
  end.

Definition isNeg (q : Q) : bool := (Qnum q <? 0)%Z.
Definition isZero (q : Q) : bool := (Qnum q =? 0)%Z.

(** Overflow: a rounded magnitude of [2^1024] or more is an infinity. *)
Definition round64 (q : Q) : number :=
  let r := rnd q in
  if Qle_bool (pow2 1024) (Qabs r) then Inf (isNeg r) else Fin r.

Definition ofZ (z : Z) : number := Fin (inject_Z z).

Definition add (x y : number) : number :=
  match x, y with
  | NaN, _ | _, NaN => NaN
  | Inf a, Inf b => if Bool.eqb a b then Inf a else NaN
  | Inf a, Fin _ => Inf a
  | Fin _, Inf b => Inf b
  | Fin a, Fin b => round64 (a + b)
  end.

Definition sub (x y : number) : number :=
  match x, y with
  | NaN, _ | _, NaN => NaN
  | Inf a, Inf b => if Bool.eqb a b then NaN else Inf a
  | Inf a, Fin _ => Inf a
  | Fin _, Inf b => Inf (negb b)
  | Fin a, Fin b => round64 (a - b)
  end.

Definition mul (x y : number) : number :=
  match x, y with
  | NaN, _ | _, NaN => NaN
  | Inf a, Inf b => Inf (xorb a b)
  | Inf a, Fin q | Fin q, Inf a =>
      if isZero q then NaN else Inf (xorb a (isNeg q))
  | Fin a, Fin b => round64 (a * b)
  end.

Definition div (x y : number) : number :=
  match x, y with
  | NaN, _ | _, NaN => NaN
  | Inf _, Inf _ => NaN
  | Inf a, Fin q => Inf (xorb a (isNeg q))
  | Fin _, Inf _ => Fin 0
  | Fin a, Fin b =>
      if isZero b then (if isZero a then NaN else Inf (isNeg a))
      else round64 (a / b)
  end.

(** [x <= y] on values that are not NaN. *)
Definition leb (x y : number) : bool :=
  match x, y with
  | NaN, _ | _, NaN => false
  | Inf true, _ => true
  | _, Inf false => true
  | Fin a, Fin b => Qle_bool a b
  | _, _ => false
  end.

(** [Math.min(x, y)] and [Math.max(x, y)]: NaN if either is NaN. *)
Definition min (x y : number) : number :=
  match x, y with
  | NaN, _ | _, NaN => NaN
  | _, _ => if leb x y then x else y
  end.

Definition max (x y : number) : number :=
  match x, y with
  | NaN, _ | _, NaN => NaN
  | _, _ => if leb x y then y else x
  end.

(** [Math.round(x)]: the nearest integer, ties towards +Infinity. *)
Definition round (x : number) : number :=
  match x with
  | Fin q => Fin (inject_Z (Qfloor (q + (1 # 2))))
  | _ => x
  end.

(** Truthiness of a Number: false for zero and NaN. *)
Definition truthy (x : number) : bool :=
  match x with
  | NaN => false
  | Inf _ => true
  | Fin q => negb (isZero q)
  end.

(** A finite value between two rationals. *)
Definition within (lo hi : Q) (x : number) : Prop :=
  exists q, x = Fin q /\ lo <= q <= hi.

(** Two finite values in order between two rationals. *)
Definition ordered (lo hi : Q) (x y : number) : Prop :=
  exists a b, x = Fin a /\ y = Fin b /\ lo <= a /\ a <= b /\ b <= hi.

(** Bounds that rounding respects: both on the binary64 grid, not
    negative, and below the overflow threshold. *)
Definition good (lo hi : Q) : Prop :=
  0 <= lo /\ rnd lo == lo /\ rnd hi == hi /\ hi < pow2 1024.

End JsNumber.

(** ** The scorer *)

Import JsString JsNumber.

(** What [scoreAnswer] returns.  The three counters are sums of ones and an
    array length; they stay far below [2^53], where Number addition is
    exact, and are kept as integers. *)
Record ScoreResult : Type := mkScoreResult {
  score : number;
  wordCount : Z;
  hits : Z;
  fillerCount : Z
}.

(** [s.toLowerCase().replace(/[^\w\s]/g, '')] *)
Definition normalizeText (s : string) : string :=
  removeAll (fun c => negb (isWordChar c || isSpace c)) (toLowerCase s).

(** [text.split(/\s+/).filter(Boolean)] *)
Definition wordsOf (text : string) : list string :=
  filter JsString.truthy (splitSpaces text).

(** [keywords.reduce((c, k) => c + (text.includes(k.toLowerCase()) ? 1 : 0), 0)] *)
Definition countHits (text : string) (keywords : list string) : Z :=
  fold_left
    (fun c k => (c + (if includes text (toLowerCase k) then 1 else 0))%Z)
    keywords 0%Z.

Definition fillers : list string :=
  ["um"; "uh"; "like"; "you know"; "so"; "actually"]%string.

(** [fillers.reduce((c, f) => c + (text.includes(f) ? 1 : 0), 0)] *)
Definition countFillers (text : string) : Z :=
  fold_left
    (fun c f => (c + (if includes text f then 1 else 0))%Z)
    fillers 0%Z.

(** [keywords.length ? hits / keywords.length : 0] *)
Definition hitRatioOf (hits len : Z) : number :=
  if JsNumber.truthy (ofZ len) then div (ofZ hits) (ofZ len) else ofZ 0.

(** The four updates of [let score = 50]. *)
Definition composeScore (hitRatio : number) (wordCount unique fillerCount : Z)
  : number :=
  let score := ofZ 50 in
  let score := add score (min (ofZ 20) (mul hitRatio (ofZ 20))) in
  let score :=
    add score
      (min (ofZ 15)
         (mul (div (min (ofZ wordCount) (ofZ 200)) (ofZ 200)) (ofZ 15))) in
  let score := sub score (min (ofZ 15) (mul (ofZ fillerCount) (ofZ 3))) in
  let score :=
    add score
      (min (ofZ 10)
         (mul (div (ofZ unique) (max (ofZ 1) (ofZ wordCount))) (ofZ 10))) in
  score.

(** [Math.max(0, Math.min(100, Math.round(score)))] *)
Definition finalScore (score : number) : number :=
  max (ofZ 0) (min (ofZ 100) (round score)).

Definition scoreAnswer (transcript : string) (keywords : list string)
  : ScoreResult :=
  let text := normalizeText transcript in
  let words := wordsOf text in
  let wordCount := Z.of_nat (List.length words) in
  let unique := Z.of_nat (setSize words) in
  let hits := countHits text keywords in
  let hitRatio := hitRatioOf hits (Z.of_nat (List.length keywords)) in
  let fillerCount := countFillers text in
  let score := composeScore hitRatio wordCount unique fillerCount in
  {| score := finalScore score;
     wordCount := wordCount;
     hits := hits;
     fillerCount := fillerCount |}.

(** The intermediate values of [scoreAnswer], by name. *)
Definition uniqueOf (transcript : string) : Z :=
  Z.of_nat (setSize (wordsOf (normalizeText transcript))).

Definition hitRatio (transcript : string) (keywords : list string) : number :=
  hitRatioOf (countHits (normalizeText transcript) keywords)
    (Z.of_nat (List.length keywords)).

(** [score] as it stands just before the [return]. *)
Definition rawScore (transcript : string) (keywords : list string) : number :=
  let text := normalizeText transcript in
  let words := wordsOf text in
  composeScore (hitRatio transcript keywords)
    (Z.of_nat (List.length words)) (Z.of_nat (setSize words))
    (countFillers text).

(** ** The specification's reading

    These two definitions follow the words of the specification, not the
    source; the theorems compare them with [scoreAnswer] and
    [normalizeText]. *)

(** "clamped to the closed range [lo, hi]" *)
Definition clamp (lo hi x : number) : number := max lo (min hi x).

(** Section 4.1, steps 3, 5 and 6: the composition law, clamped and then
    rounded. *)
Definition specScore (hits keywordCount wordCount distinct fillerCount : Z)
  : number :=
  let hit_ratio :=
    if (keywordCount =? 0)%Z then ofZ 0
    else div (ofZ hits) (ofZ keywordCount) in
  let base := ofZ 50 in
  let keywordPart := min (ofZ 20) (mul hit_ratio (ofZ 20)) in
  let lengthPart :=
    min (ofZ 15)
      (mul (div (min (ofZ wordCount) (ofZ 200)) (ofZ 200)) (ofZ 15)) in
  let fillerPart := min (ofZ 15) (mul (ofZ fillerCount) (ofZ 3)) in
  let varietyPart :=
    min (ofZ 10)
      (mul (div (ofZ distinct) (max (ofZ 1) (ofZ wordCount))) (ofZ 10)) in
  round
    (clamp (ofZ 0) (ofZ 100)
       (add (sub (add (add base keywordPart) lengthPart) fillerPart)
          varietyPart)).

(** Section 4.1, step 1: lower-case, then strip what is neither
    alphanumeric nor whitespace. *)
Definition specNormalize (s : string) : string :=
  removeAll (fun c => negb (isAlphanumeric c) && negb (isSpace c))
    (toLowerCase s).

(** ** The reference binary64 operations

    [SpecFloat] of the Standard Library gives the IEEE 754 operations on
    sign, mantissa and exponent.  The same score formula is written over
    them, to compare [JsNumber] with on concrete inputs. *)
Module Binary64Reference.
Definition prec : Z := 53.
Definition emax : Z := 1024.

Definition sfOfZ (z : Z) : spec_float := binary_normalize prec emax z 0 false.

Definition sfMin (x y : spec_float) : spec_float := if SFleb x y then x else y.
Definition sfMax (x y : spec_float) : spec_float := if SFleb x y then y else x.

Definition valueOf (f : spec_float) : number :=
  match f with
  | S754_zero _ => Fin 0
  | S754_infinity s => Inf s
  | S754_nan => NaN
  | S754_finite s m e =>
      Fin (Qred (inject_Z (if s then Z.neg m else Z.pos m) * pow2 e))
  end.

Definition sameNumber (x y : number) : bool :=
  match x, y with
  | NaN, NaN => true
  | Inf a, Inf b => Bool.eqb a b
  | Fin a, Fin b => Qeq_bool a b
  | _, _ => false
  end.

Definition sfCompose (hits len wordCount unique fillerCount : Z) : spec_float :=
  let hitRatio :=
    if (len =? 0)%Z then sfOfZ 0
    else SFdiv prec emax (sfOfZ hits) (sfOfZ len) in
  let score := sfOfZ 50 in
  let score :=
    SFadd prec emax score
      (sfMin (sfOfZ 20) (SFmul prec emax hitRatio (sfOfZ 20))) in
  let score :=
    SFadd prec emax score
      (sfMin (sfOfZ 15)
         (SFmul prec emax
            (SFdiv prec emax (sfMin (sfOfZ wordCount) (sfOfZ 200)) (sfOfZ 200))
            (sfOfZ 15))) in
  let score :=
    SFsub prec emax score
      (sfMin (sfOfZ 15) (SFmul prec emax (sfOfZ fillerCount) (sfOfZ 3))) in
  let score :=
    SFadd prec emax score
      (sfMin (sfOfZ 10)
         (SFmul prec emax
            (SFdiv prec emax (sfOfZ unique) (sfMax (sfOfZ 1) (sfOfZ wordCount)))
            (sfOfZ 10))) in
  score.

Definition range (a b : Z) : list Z :=
  map (fun i => (a + Z.of_nat i)%Z) (seq 0 (Z.to_nat (b - a + 1))).

Definition opsAgree (a b : Z) : bool :=
  sameNumber (add (ofZ a) (ofZ b)) (valueOf (SFadd prec emax (sfOfZ a) (sfOfZ b)))
  && sameNumber (sub (ofZ a) (ofZ b)) (valueOf (SFsub prec emax (sfOfZ a) (sfOfZ b)))
  && sameNumber (mul (ofZ a) (ofZ b)) (valueOf (SFmul prec emax (sfOfZ a) (sfOfZ b)))
  && sameNumber (div (ofZ a) (ofZ b)) (valueOf (SFdiv prec emax (sfOfZ a) (sfOfZ b))).

Definition composeAgrees (hits len wordCount unique fillerCount : Z) : bool :=
  sameNumber (composeScore (hitRatioOf hits len) wordCount unique fillerCount)
    (valueOf (sfCompose hits len wordCount unique fillerCount)).

(** The products [x], [x * c], [x * c * c], ... on both sides, with a sum
    and a quotient taken at each one: started near the end of the exponent
    range, the chain runs through the subnormal values down to zero, or up
    to the overflow. *)
Fixpoint chainAgrees (n : nat) (x c : number) (y d : spec_float) : bool :=
  sameNumber x (valueOf y)
  && sameNumber (add x (mul x c))
       (valueOf (SFadd prec emax y (SFmul prec emax y d)))
  && sameNumber (div x (ofZ 7)) (valueOf (SFdiv prec emax y (sfOfZ 7)))
  && match n with
     | O => true
     | S n' => chainAgrees n' (mul x c) c (SFmul prec emax y d) d
     end.
End Binary64Reference.

Import Binary64Reference.

(** ** Keywords that can match

    [normalizeText] keeps a character when it is in [\w] or [\s]; a
    keyword can be found in a normalized transcript only if every
    character of its lower-cased form is kept. *)
Definition keptChar (c : ascii) : bool := isWordChar c || isSpace c.

Definition matchable (k : string) : bool :=
  forallb keptChar (list_ascii_of_string (toLowerCase k)).

(** ** More of the string run time: [trim] and [join] *)
Module JsStringOps.

(** [s.trimStart()]: leading whitespace and line terminators go; below 256
    they are the characters of [\s]. *)
Fixpoint trimStart (s : string) : string :=
  match s with
  | EmptyString => EmptyString
  | String c s' => if isSpace c then trimStart s' else s
  end.

(** [s.trimEnd()] *)
Fixpoint trimEnd (s : string) : string :=
  match s with
  | EmptyString => EmptyString
  | String c s' =>
      match trimEnd s' with
      | EmptyString => if isSpace c then EmptyString else String c EmptyString
      | rest => String c rest
      end
  end.

(** [s.trim()] *)
Definition trim (s : string) : string := trimEnd (trimStart s).

(** Only whitespace, or nothing: what [trim] empties. *)
Definition blank (s : string) : bool := forallb isSpace (list_ascii_of_string s).

(** The line feed of the literal ['\n']. *)
Definition newline : string := String (ascii_of_N 10) EmptyString.

(** [l.join(sep)] on an array of strings. *)
Definition join (sep : string) (l : list string) : string := String.concat sep l.

End JsStringOps.

Import JsStringOps.

(** ** The assistant ([src/utils/answerQuery.ts])

    [answerQuery] reads three fields of the profile object it is given. *)
Module Project.
Record t : Type := mk { title : string; summary : string }.
End Project.

Module Profile.
Record t : Type := mk {
  summary : string;
  skills : list string;
  projects : list Project.t
}.
End Profile.

(** Every path of [answerQuery] calls [setAnswer] once, then [setSource]
    once, with literals; the embedding returns the two arguments.  Two of
    the literals hold characters above 255 (a bullet, a dash), so each
    literal is a constructor here and the one computed text is carried. *)
Inductive answer : Type :=
| AskAnything
    (* 'Ask me anything about my skills, projects, or experience.' *)
| FocusOnReact (text : string)
    (* PROFILE.summary + ' I focus on React, TypeScript and
       component-driven development.' *)
| MobileApps
    (* 'I build mobile apps with Expo + React Native, ...' *)
| AuthPatterns
    (* 'I implement secure authentication patterns: ...' *)
| NfcWallet
    (* 'I prototyped NFC-based wallet systems ...' *)
| PartOfProfile
    (* 'Yes — that is part of my profile. ...' *)
| NotFound.
    (* 'I could not find an exact answer in my profile. ...' *)

Inductive source : Type :=
| NoSource            (* '' *)
| SummarySkills       (* 'Summary • Skills' *)
| ProjectsSkills      (* 'Projects • Skills' *)
| ProjectsExperience  (* 'Projects • Experience' *)
| ProjectsOnly        (* 'Projects' *)
| ProfileSource.      (* 'Profile' *)

(** The text searched by the last branch:
    [[PROFILE.summary, ...PROFILE.skills, ...PROFILE.projects.map(p => p.summary)]
     .join('\n').toLowerCase()] *)
Definition joinedProfile (PROFILE : Profile.t) : string :=
  toLowerCase
    (join newline
       (Profile.summary PROFILE
        :: Profile.skills PROFILE
           ++ map Project.summary (Profile.projects PROFILE))).

Definition answerQuery (q : string) (PROFILE : Profile.t) : answer * source :=
  let qn := toLowerCase (trim q) in
  if negb (JsString.truthy qn) then (AskAnything, NoSource)
  else if includes qn "react" || includes qn "frontend" then
    (FocusOnReact
       (Profile.summary PROFILE
        ++ " I focus on React, TypeScript and component-driven development."),
     SummarySkills)
  else if includes qn "react native" || includes qn "expo"
          || includes qn "mobile" then
    (MobileApps, ProjectsSkills)
  else if includes qn "authentication" || includes qn "token" then
    (AuthPatterns, ProjectsExperience)
  else if includes qn "nfc" || includes qn "desfire" then
    (NfcWallet, ProjectsOnly)
  else if includes (joinedProfile PROFILE) qn then
    (PartOfProfile, ProfileSource)
  else (NotFound, NoSource).

(** ** The simulator's state ([src/app/InterviewSimulator.tsx]) *)
Module Question.
Record t : Type := mk { id : string; text : string; keywords : list string }.
End Question.

Definition DEFAULT_QUESTIONS : list Question.t :=
  [ Question.mk "q1" "Tell me about yourself and your recent projects."
      ["React"; "Expo"; "TypeScript"; "delivery"; "Zajel"];
    Question.mk "q2" "How do you handle authentication and tokens in your apps?"
      ["refresh"; "token"; "secure"; "storage"; ".NET"];
    Question.mk "q3" "Describe a difficult bug you fixed and how you solved it."
      ["debug"; "logs"; "breakdown"; "steps"; "fix"];
    Question.mk "q4" "How would you handle a difficult customer call in English?"
      ["empathy"; "listen"; "steps"; "solution"; "calm"] ]%string.

(** An entry of [history], as [submitAnswer] builds it. *)
Module Entry.
Record t : Type := mk {
  question : string;
  transcript : string;
  score : number;
  meta : ScoreResult;
  date : string
}.
End Entry.

(** The four [useState] cells of the component.  [currentIdx] is a small
    whole Number and is kept as an integer. *)
Module Sim.
Record State : Type := mkState {
  currentIdx : Z;
  listening : bool;
  transcript : string;
  history : list Entry.t
}.
End Sim.

Definition initialState : Sim.State :=
  Sim.mkState 0 false EmptyString [].

(** [questions[i]]: [undefined] outside the array. *)
Definition questionAt (questions : list Question.t) (i : Z) : option Question.t :=
  if (i <? 0)%Z then None else nth_error questions (Z.to_nat i).

(** [stopListening]: whatever [stop()] does, the flag goes down. *)
Definition stopListening (st : Sim.State) : Sim.State :=
  Sim.mkState (Sim.currentIdx st) false (Sim.transcript st) (Sim.history st).

(** [startListening].  [recognizer] tells whether [recogRef.current] is set,
    [started] whether [r.start()] returned without throwing.  The second
    component tells whether the alert was shown. *)
Definition startListening (recognizer started : bool) (st : Sim.State)
  : Sim.State * bool :=
  if negb recognizer then (st, true)
  else
    (Sim.mkState (Sim.currentIdx st) started EmptyString (Sim.history st),
     false).

(** [submitAnswer], with [now] for [new Date().toISOString()].  When
    [questions[currentIdx]] is [undefined], reading [q.keywords] throws
    before any state is set: [None]. *)
Definition submitAnswer (questions : list Question.t) (now : string)
    (st : Sim.State) : option Sim.State :=
  match questionAt questions (Sim.currentIdx st) with
  | None => None
  | Some q =>
      let s := scoreAnswer (Sim.transcript st) (Question.keywords q) in
      let entry :=
        Entry.mk (Question.text q) (Sim.transcript st) (score s) s now in
      Some
        (Sim.mkState
           (Z.min (Z.of_nat (List.length questions) - 1) (Sim.currentIdx st + 1))
           false EmptyString (Sim.history st ++ [entry]))
  end.

(** One result of a [SpeechRecognitionEvent]: [res.isFinal] and
    [res[0].transcript]. *)
Record SpeechResult : Type := mkSpeechResult {
  isFinal : bool;
  alternative : string
}.

(** The loop of [onresult] from [ev.resultIndex]: the pair
    [(interim, finalTrans)]. *)
Definition collectResults (resultIndex : nat) (results : list SpeechResult)
  : string * string :=
  fold_left
    (fun acc res =>
       if isFinal res then (fst acc, (snd acc ++ alternative res)%string)
       else ((fst acc ++ alternative res)%string, snd acc))
    (skipn resultIndex results) (EmptyString, EmptyString).

(** [onresult]:
    [setTranscript((prev) => (finalTrans ? prev + ' ' + finalTrans : prev))] *)
Definition onresult (resultIndex : nat) (results : list SpeechResult)
    (st : Sim.State) : Sim.State :=
  let finalTrans := snd (collectResults resultIndex results) in
  let prev := Sim.transcript st in
  Sim.mkState (Sim.currentIdx st) (Sim.listening st)
    (if JsString.truthy finalTrans then (prev ++ " " ++ finalTrans)%string
     else prev)
    (Sim.history st).

(** [onerror] *)
Definition onerror (st : Sim.State) : Sim.State := stopListening st.

(** The phrase of the "Insert Example Phrase" button. *)
Definition examplePhrase : string :=
  "I implemented authentication using refresh tokens and secure storage.".

(** What the user and the browser can do to the component. *)
Inductive event : Type :=
| ToggleRecording (recognizer started : bool)
    (* listening ? stopListening() : startListening() *)
| ClickSubmit (now : string)
    (* stopListening(); submitAnswer() *)
| TypeText (value : string)
    (* onChange: setTranscript(e.target.value) *)
| ClickClear
    (* setTranscript('') *)
| ClickInsertExample
    (* setTranscript(prev => prev + ' ' + '...') *)
| ClickReset
    (* setCurrentIdx(0); setHistory([]); setTranscript('') *)
| SpeechResults (resultIndex : nat) (results : list SpeechResult)
| SpeechError.

(** One handler run; [None] when the handler throws. *)
Definition step (questions : list Question.t) (e : event) (st : Sim.State)
  : option Sim.State :=
  match e with
  | ToggleRecording recognizer started =>
      Some (if Sim.listening st then stopListening st
            else fst (startListening recognizer started st))
  | ClickSubmit now => submitAnswer questions now (stopListening st)
  | TypeText value =>
      Some (Sim.mkState (Sim.currentIdx st) (Sim.listening st) value
              (Sim.history st))
  | ClickClear =>
      Some (Sim.mkState (Sim.currentIdx st) (Sim.listening st) EmptyString
              (Sim.history st))
  | ClickInsertExample =>
      Some (Sim.mkState (Sim.currentIdx st) (Sim.listening st)
              (Sim.transcript st ++ " " ++ examplePhrase)%string
              (Sim.history st))
  | ClickReset => Some (Sim.mkState 0 (Sim.listening st) EmptyString [])
  | SpeechResults resultIndex results => Some (onresult resultIndex results st)
  | SpeechError => Some (onerror st)
  end.

(** Handlers run one after the other; a throw stops the run. *)
Fixpoint run (questions : list Question.t) (es : list event) (st : Sim.State)
  : option Sim.State :=
  match es with
  | [] => Some st
  | e :: es' =>
      match step questions e st with
      | None => None
      | Some st' => run questions es' st'
      end
  end.

(** The index points into the questions. *)
Definition inRange (questions : list Question.t) (st : Sim.State) : Prop :=
  (0 <= Sim.currentIdx st < Z.of_nat (List.length questions))%Z.

(** What an entry of the history should satisfy: it holds the text of one
    of the questions, the result of [scoreAnswer] on its own transcript and
    that question's keywords, and that result's score, an integer from 35
    to 95. *)
Definition soundEntry (questions : list Question.t) (h : Entry.t) : Prop :=
  exists q, In q questions
            /\ Entry.question h = Question.text q
            /\ Entry.meta h = scoreAnswer (Entry.transcript h) (Question.keywords q)
            /\ Entry.score h = score (Entry.meta h)
            /\ exists n, Entry.score h = ofZ n /\ (35 <= n <= 95)%Z.

(** Counting over a run: the submits, and whether a reset occurs. *)
Definition isSubmit (e : event) : bool :=
  match e with ClickSubmit _ => true | _ => false end.

Definition isReset (e : event) : bool :=
  match e with ClickReset => true | _ => false end.

Definition countSubmits (es : list event) : nat :=
  List.length (filter isSubmit es).

(** The final results of an event from [resultIndex] on, put together. *)
Definition finalText (resultIndex : nat) (results : list SpeechResult) : string :=
  fold_right String.append EmptyString
    (map alternative (filter isFinal (skipn resultIndex results))).

(** ** The report ([downloadReport])

    The calls made on the jsPDF document, with the place of every text.
    The texts are named by what they print; [splitTextToSize] belongs to
    jsPDF and is given. *)
Inductive reportText : Type :=
| ReportTitle
| CandidateLine
| DateLine
| QuestionLine (idx : nat) (h : Entry.t)
    (* `${idx + 1}. Q: ${h.question}` *)
| AnswerLines (txt : list string)
    (* doc.splitTextToSize(`A: ${h.transcript}`, 180) *)
| ScoreLine (h : Entry.t).
    (* `Score: ${h.score}  • Words: ${h.meta.wordCount}  • Keyword hits: ${h.meta.hits}` *)

Inductive pdfCall : Type :=
| SetFontSize (size : Z)
| TextAt (t : reportText) (x y : Z)
| AddPage
| Save.

(** The body of [history.forEach((h, idx) => ...)], from entry [idx] on
    with the cursor at [y]. *)
Fixpoint reportEntries (splitTextToSize : string -> Z -> list string)
    (idx : nat) (y : Z) (history : list Entry.t) : list pdfCall :=
  match history with
  | [] => []
  | h :: rest =>
      let txt := splitTextToSize ("A: " ++ Entry.transcript h)%string 180%Z in
      let y1 := (y + 6)%Z in
      let y2 := (y1 + Z.of_nat (List.length txt) * 6)%Z in
      let y3 := (y2 + 10)%Z in
      [SetFontSize 11; TextAt (QuestionLine idx h) 14 y;
       SetFontSize 10; TextAt (AnswerLines txt) 14 y1;
       TextAt (ScoreLine h) 14 y2]
      ++ (if (y3 >? 270)%Z
          then AddPage :: reportEntries splitTextToSize (S idx) 20 rest
          else reportEntries splitTextToSize (S idx) y3 rest)
  end.

(** What one entry moves the cursor by: 6 for the question, 6 a line of
    answer, 10 after the score line. *)
Definition entryHeight (splitTextToSize : string -> Z -> list string)
    (h : Entry.t) : Z :=
  (6 + Z.of_nat
         (List.length
            (splitTextToSize ("A: " ++ Entry.transcript h)%string 180%Z)) * 6
   + 10)%Z.

Definition isAddPage (c : pdfCall) : bool :=
  match c with AddPage => true | _ => false end.

Definition downloadReport (splitTextToSize : string -> Z -> list string)
    (history : list Entry.t) : list pdfCall :=
  [SetFontSize 14; TextAt ReportTitle 14 18;
   SetFontSize 10; TextAt CandidateLine 14 28; TextAt DateLine 14 34]
  ++ reportEntries splitTextToSize 0 44 history
  ++ [Save].


(** * Properties *)

(** ** Rounding to binary64 is monotone *)
Section Rounding.
Local Open Scope Q_scope.

Lemma pow2_pos e : 0 < pow2 e.
Proof. apply Qpower_0_lt. reflexivity. Qed.

Lemma pow2_add a b : pow2 (a + b) == pow2 a * pow2 b.
Proof. apply Qpower_plus. discriminate. Qed.

Lemma pow2_le a b : (a <= b)%Z -> pow2 a <= pow2 b.
Proof. intros H. apply Qpower_le_compat_l; [exact H | discriminate]. Qed.

Lemma pow2_lt_inv a b : pow2 a < pow2 b -> (a < b)%Z.
Proof. intros H. apply (Qpower_lt_compat_l_inv 2); [exact H | reflexivity]. Qed.

Lemma pow2_Z e : (0 <= e)%Z -> pow2 e == inject_Z (2 ^ e).
Proof. intros H. symmetry. apply (Zpower_Qpower 2 e H). Qed.

Lemma pow2_quot a b : pow2 a / pow2 b == pow2 (a - b).
Proof.
  assert (H := pow2_add (a - b) b). assert (P := pow2_pos b).
  replace (a - b + b)%Z with a in H by ring.
  rewrite H. field. intros E. rewrite E in P. discriminate.
Qed.

Lemma ilog2_spec q : 0 < q -> pow2 (ilog2 q) <= q < pow2 (ilog2 q + 1).
Proof.
  intros Hq. destruct q as [n d]. unfold ilog2. cbn [Qnum Qden].
  assert (Hn : (0 < n)%Z).
  { unfold Qlt in Hq. cbn in Hq. lia. }
  set (a := Z.log2 n). set (b := Z.log2 (Z.pos d)).
  assert (Ha := Z.log2_spec n Hn). fold a in Ha.
  assert (Hb := Z.log2_spec (Z.pos d) (Pos2Z.is_pos d)). fold b in Hb.
  assert (Ha0 : (0 <= a)%Z) by apply Z.log2_nonneg.
  assert (Hb0 : (0 <= b)%Z) by apply Z.log2_nonneg.
  assert (Qa : pow2 a <= inject_Z n).
  { rewrite pow2_Z by assumption. rewrite <- Zle_Qle. lia. }
  assert (Qa' : inject_Z n < pow2 (a + 1)).
  { rewrite pow2_Z by lia. rewrite <- Zlt_Qlt. replace (a + 1)%Z with (Z.succ a) by lia. lia. }
  assert (Qb : pow2 b <= inject_Z (Z.pos d)).
  { rewrite pow2_Z by assumption. rewrite <- Zle_Qle. lia. }
  assert (Qb' : inject_Z (Z.pos d) < pow2 (b + 1)).
  { rewrite pow2_Z by lia. rewrite <- Zlt_Qlt. replace (b + 1)%Z with (Z.succ b) by lia. lia. }
  assert (Hd : 0 < inject_Z (Z.pos d)) by reflexivity.
  assert (E : n # d == inject_Z n / inject_Z (Z.pos d)) by apply Qmake_Qdiv.
  assert (Up : n # d < pow2 (a - b + 1)).
  { rewrite E. apply Qlt_shift_div_r; [exact Hd|].
    apply Qlt_le_trans with (1 := Qa').
    replace (a + 1)%Z with ((a - b + 1) + b)%Z by ring. rewrite pow2_add.
    apply Qmult_le_l; [apply pow2_pos | exact Qb]. }
  assert (Lo : pow2 (a - b - 1) <= n # d).
  { rewrite E. apply Qle_shift_div_l; [exact Hd|].
    apply Qle_trans with (2 := Qa).
    replace a with ((a - b - 1) + (b + 1))%Z at 2 by ring. rewrite pow2_add.
    apply Qmult_le_l; [apply pow2_pos | apply Qlt_le_weak; exact Qb']. }
  destruct (Qle_bool (pow2 (a - b)) (n # d)) eqn:T.
  - apply Qle_bool_iff in T. split; assumption.
  - split; [exact Lo|].
    replace (a - b - 1 + 1)%Z with (a - b)%Z by ring.
    apply Qnot_le_lt. intros C. apply Qle_bool_iff in C. congruence.
Qed.

Lemma roundHalfEven_Z q n : q == inject_Z n -> roundHalfEven q = n.
Proof.
  intros E. unfold roundHalfEven.
  assert (F : Qfloor q = n) by (rewrite E; apply Qfloor_Z).
  rewrite F.
  destruct (Qcompare_spec (q - inject_Z n) (1 # 2)) as [H|H|H]; try reflexivity.
  - exfalso. rewrite E in H. lra.
  - exfalso. rewrite E in H. lra.
Qed.

Lemma roundHalfEven_mono x y : x <= y -> (roundHalfEven x <= roundHalfEven y)%Z.
Proof.
  intros H. assert (F := Qfloor_resp_le x y H).
  unfold roundHalfEven.
  destruct (Z.eq_dec (Qfloor x) (Qfloor y)) as [E|NE].
  - rewrite E.
    destruct (Qcompare_spec (x - inject_Z (Qfloor y)) (1 # 2)) as [A|A|A];
    destruct (Qcompare_spec (y - inject_Z (Qfloor y)) (1 # 2)) as [B|B|B];
    try (destruct (Z.even (Qfloor y))); try lia; exfalso; lra.
  - assert (Qfloor x + 1 <= Qfloor y)%Z by lia.
    destruct (Qcompare (x - inject_Z (Qfloor x)) (1 # 2));
    destruct (Qcompare (y - inject_Z (Qfloor y)) (1 # 2));
    try (destruct (Z.even (Qfloor x))); try (destruct (Z.even (Qfloor y))); lia.
Qed.

Lemma div_pow2_le x y e : x <= y -> x / pow2 e <= y / pow2 e.
Proof.
  intros H. unfold Qdiv. apply Qmult_le_compat_r; [exact H|].
  apply Qlt_le_weak, Qinv_lt_0_compat, pow2_pos.
Qed.

Lemma scale_le (m n : Z) e : (m <= n)%Z -> inject_Z m * pow2 e <= inject_Z n * pow2 e.
Proof.
  intros H. apply Qmult_le_compat_r; [rewrite <- Zle_Qle; exact H|].
  apply Qlt_le_weak, pow2_pos.
Qed.

Lemma roundPos_mono x y : 0 < x -> x <= y -> roundPos x <= roundPos y.
Proof.
  intros Hx Hxy. assert (Hy : 0 < y) by (eapply Qlt_le_trans; eassumption).
  destruct (ilog2_spec x Hx) as [Lx Ux]. destruct (ilog2_spec y Hy) as [Ly Uy].
  assert (Hl : (ilog2 x <= ilog2 y)%Z).
  { assert (pow2 (ilog2 x) < pow2 (ilog2 y + 1)).
    { eapply Qle_lt_trans; [exact Lx|]. eapply Qle_lt_trans; eassumption. }
    apply pow2_lt_inv in H. lia. }
  unfold roundPos.
  destruct (Z.eq_dec (cexp x) (cexp y)) as [E|NE].
  - rewrite E. apply scale_le, roundHalfEven_mono, div_pow2_le, Hxy.
  - assert (Hc : (cexp x < cexp y)%Z) by (unfold cexp in *; lia).
    assert (Ey : cexp y = (ilog2 y - 52)%Z) by (unfold cexp in *; lia).
    assert (Hlx : (ilog2 x + 1 <= ilog2 y)%Z) by (unfold cexp in *; lia).
    apply Qle_trans with (pow2 (ilog2 y)).
    + (* the smaller argument stays below the next binade *)
      assert (K : (0 <= ilog2 y - cexp x)%Z) by lia.
      assert (S : x / pow2 (cexp x) <= inject_Z (2 ^ (ilog2 y - cexp x))).
      { rewrite <- pow2_Z by exact K. rewrite <- pow2_quot.
        apply div_pow2_le. apply Qlt_le_weak.
        eapply Qlt_le_trans; [exact Ux | apply pow2_le; exact Hlx]. }
      apply roundHalfEven_mono in S.
      rewrite (roundHalfEven_Z (inject_Z (2 ^ (ilog2 y - cexp x))) (2 ^ (ilog2 y - cexp x))) in S by reflexivity.
      eapply Qle_trans; [apply scale_le; exact S|].
      rewrite <- pow2_Z by exact K. rewrite <- pow2_add.
      apply pow2_le. lia.
    + assert (S : inject_Z (2 ^ 52) <= y / pow2 (cexp y)).
      { rewrite <- pow2_Z by lia.
        replace 52%Z with (ilog2 y - cexp y)%Z by lia.
        rewrite <- pow2_quot. apply div_pow2_le, Ly. }
      apply roundHalfEven_mono in S.
      rewrite (roundHalfEven_Z (inject_Z (2 ^ 52)) (2 ^ 52)) in S by reflexivity.
      eapply Qle_trans; [|apply scale_le; exact S].
      rewrite <- pow2_Z by lia. rewrite <- pow2_add.
      apply pow2_le. lia.
Qed.

Lemma roundPos_nonneg q : 0 < q -> 0 <= roundPos q.
Proof.
  intros H. unfold roundPos.
  apply Qmult_le_0_compat; [|apply Qlt_le_weak, pow2_pos].
  change 0 with (inject_Z 0). rewrite <- Zle_Qle.
  rewrite <- (roundHalfEven_Z 0 0) by reflexivity.
  apply roundHalfEven_mono. apply Qlt_le_weak.
  apply Qlt_shift_div_l; [apply pow2_pos|]. rewrite Qmult_0_l. exact H.
Qed.

Lemma rnd_nonneg q : 0 <= q -> 0 <= rnd q.
Proof.
  intros H. unfold rnd. destruct q as [[|p|p] d]; cbn [Qnum].
  - apply Qle_refl.
  - rewrite Qred_correct. apply roundPos_nonneg. reflexivity.
  - exfalso. unfold Qle in H. cbn in H. lia.
Qed.

Lemma rnd_mono x y : 0 <= x -> x <= y -> rnd x <= rnd y.
Proof.
  intros Hx Hxy.
  assert (Hy : 0 <= y) by (eapply Qle_trans; eassumption).
  destruct x as [[|p|p] d].
  - apply (rnd_nonneg y Hy).
  - destruct y as [[|p'|p'] d'].
    + exfalso. unfold Qle in Hxy. cbn in Hxy. lia.
    + unfold rnd. cbn [Qnum]. rewrite !Qred_correct.
      apply roundPos_mono; [reflexivity | exact Hxy].
    + exfalso. unfold Qle in Hy. cbn in Hy. lia.
  - exfalso. unfold Qle in Hx. cbn in Hx. lia.
Qed.

Lemma round64_fin q : 0 <= rnd q -> rnd q < pow2 1024 -> round64 q = Fin (rnd q).
Proof.
  intros H0 H1. unfold round64.
  destruct (Qle_bool (pow2 1024) (Qabs (rnd q))) eqn:T; [|reflexivity].
  exfalso. apply Qle_bool_iff in T. rewrite Qabs_pos in T by exact H0.
  apply (Qlt_irrefl (rnd q)). eapply Qlt_le_trans; eassumption.
Qed.

Lemma round64_ordered L H p q :
  good L H -> L <= p -> p <= q -> q <= H ->
  ordered L H (round64 p) (round64 q).
Proof.
  intros (G0 & GL & GH & GM) Hp Hpq Hq.
  assert (P0 : 0 <= p) by (eapply Qle_trans; eassumption).
  assert (Q0 : 0 <= q) by (eapply Qle_trans; eassumption).
  assert (A : L <= rnd p) by (rewrite <- GL; apply rnd_mono; assumption).
  assert (B : rnd p <= rnd q) by (apply rnd_mono; assumption).
  assert (C : rnd q <= H) by (rewrite <- GH; apply rnd_mono; assumption).
  exists (rnd p), (rnd q).
  rewrite !round64_fin; try (apply rnd_nonneg; assumption).
  - repeat split; assumption.
  - eapply Qle_lt_trans; eassumption.
  - eapply Qle_lt_trans; [|exact GM]. eapply Qle_trans; eassumption.
Qed.

Lemma within_ordered lo hi x : within lo hi x <-> ordered lo hi x x.
Proof.
  split.
  - intros (q & -> & A & B). exists q, q. repeat split; try assumption. apply Qle_refl.
  - intros (a & b & -> & E & A & B & C). injection E as <-.
    exists a. repeat split; assumption.
Qed.

Lemma ordered_left lo hi x y : ordered lo hi x y -> within lo hi x.
Proof.
  intros (a & b & -> & -> & A & B & C). exists a. repeat split; try assumption.
  eapply Qle_trans; eassumption.
Qed.

Lemma ordered_right lo hi x y : ordered lo hi x y -> within lo hi y.
Proof.
  intros (a & b & -> & -> & A & B & C). exists b. repeat split; try assumption.
  eapply Qle_trans; eassumption.
Qed.

Lemma ordered_ofZ n : ordered (inject_Z n) (inject_Z n) (ofZ n) (ofZ n).
Proof. exists (inject_Z n), (inject_Z n). repeat split; apply Qle_refl. Qed.

Lemma add_ordered lo hi lo2 hi2 L H x x' y y' :
  ordered lo hi x x' -> ordered lo2 hi2 y y' ->
  L <= lo + lo2 -> hi + hi2 <= H -> good L H ->
  ordered L H (add x y) (add x' y').
Proof.
  intros (a & a' & -> & -> & A1 & A2 & A3) (b & b' & -> & -> & B1 & B2 & B3) HL HH G.
  cbn [add]. apply round64_ordered; [exact G | lra | lra | lra].
Qed.

Lemma sub_ordered lo hi lo2 hi2 L H x x' y y' :
  ordered lo hi x x' -> ordered lo2 hi2 y' y ->
  L <= lo - hi2 -> hi - lo2 <= H -> good L H ->
  ordered L H (sub x y) (sub x' y').
Proof.
  intros (a & a' & -> & -> & A1 & A2 & A3) (b' & b & -> & -> & B1 & B2 & B3) HL HH G.
  cbn [sub]. apply round64_ordered; [exact G | lra | lra | lra].
Qed.

Lemma mul_ordered lo hi c L H x x' :
  ordered lo hi x x' -> 0 <= c ->
  L <= lo * c -> hi * c <= H -> good L H ->
  ordered L H (mul x (Fin c)) (mul x' (Fin c)).
Proof.
  intros (a & a' & -> & -> & A1 & A2 & A3) Hc HL HH G.
  cbn [mul]. apply round64_ordered; [exact G | | | ].
  - eapply Qle_trans; [exact HL|]. apply Qmult_le_compat_r; assumption.
  - apply Qmult_le_compat_r; assumption.
  - eapply Qle_trans; [|exact HH]. apply Qmult_le_compat_r; assumption.
Qed.

Lemma div_ordered lo hi d L H x x' :
  ordered lo hi x x' -> 0 < d ->
  L * d <= lo -> hi <= H * d -> good L H ->
  ordered L H (div x (Fin d)) (div x' (Fin d)).
Proof.
  intros (a & a' & -> & -> & A1 & A2 & A3) Hd HL HH G.
  cbn [div].
  assert (Z : isZero d = false).
  { unfold isZero. destruct d as [n dd]. unfold Qlt in Hd. cbn in *. lia. }
  rewrite Z. apply round64_ordered; [exact G | | | ].
  - apply Qle_shift_div_l; [exact Hd|]. lra.
  - unfold Qdiv. apply Qmult_le_compat_r; [exact A2|].
    apply Qlt_le_weak, Qinv_lt_0_compat, Hd.
  - apply Qle_shift_div_r; [exact Hd|]. lra.
Qed.

Lemma min_ordered lo hi c x x' :
  ordered lo hi x x' -> lo <= c ->
  ordered lo c (min (Fin c) x) (min (Fin c) x').
Proof.
  intros (a & a' & -> & -> & A1 & A2 & A3) Hc. cbn [min leb].
  destruct (Qle_bool c a) eqn:Ta; destruct (Qle_bool c a') eqn:Ta'.
  - exists c, c. repeat split; try assumption; apply Qle_refl.
  - exfalso. apply Qle_bool_iff in Ta.
    assert (Qle_bool c a' = true) by (apply Qle_bool_iff; lra). congruence.
  - exists a, c. repeat split; try assumption.
    + apply Qlt_le_weak, Qnot_le_lt. intros C. apply Qle_bool_iff in C. congruence.
    + apply Qle_refl.
  - exists a, a'. repeat split; try assumption.
    apply Qlt_le_weak, Qnot_le_lt. intros C. apply Qle_bool_iff in C. congruence.
Qed.

Lemma ordered_ofZ2 m n :
  (m <= n)%Z -> ordered (inject_Z m) (inject_Z n) (ofZ m) (ofZ n).
Proof.
  intros H. exists (inject_Z m), (inject_Z n).
  repeat split; try apply Qle_refl. rewrite <- Zle_Qle. exact H.
Qed.

Lemma Qle_bool_inject a b : Qle_bool (inject_Z a) (inject_Z b) = (a <=? b)%Z.
Proof. unfold Qle_bool. cbn. now rewrite !Z.mul_1_r. Qed.

Lemma min_ofZ a b : min (ofZ a) (ofZ b) = ofZ (Z.min a b).
Proof.
  unfold ofZ. cbn [min leb]. rewrite Qle_bool_inject.
  destruct (Z.leb_spec a b); f_equal; f_equal; lia.
Qed.

Lemma max_ofZ a b : max (ofZ a) (ofZ b) = ofZ (Z.max a b).
Proof.
  unfold ofZ. cbn [max leb]. rewrite Qle_bool_inject.
  destruct (Z.leb_spec a b); f_equal; f_equal; lia.
Qed.

Ltac good_bounds :=
  unfold good; split; [|split; [|split]];
  [ apply Qle_bool_iff; vm_compute; reflexivity
  | vm_compute; reflexivity
  | vm_compute; reflexivity
  | vm_compute; reflexivity ].

Lemma hitRatioOf_ordered h h' len :
  (0 <= h)%Z -> (h <= h')%Z -> (h' <= len)%Z ->
  ordered 0 1 (hitRatioOf h len) (hitRatioOf h' len).
Proof.
  intros H0 H1 H2. unfold hitRatioOf. cbn [JsNumber.truthy ofZ].
  unfold isZero. cbn [Qnum inject_Z].
  destruct (Z.eqb_spec len 0) as [E|NE]; cbn [negb].
  - exists 0, 0. repeat split; try apply Qle_refl. discriminate.
  - apply (div_ordered (inject_Z h) (inject_Z h')).
    + apply ordered_ofZ2. exact H1.
    + change 0 with (inject_Z 0). rewrite <- Zlt_Qlt. lia.
    + rewrite Qmult_0_l. change 0 with (inject_Z 0). rewrite <- Zle_Qle. exact H0.
    + rewrite Qmult_1_l. rewrite <- Zle_Qle. exact H2.
    + good_bounds.
Qed.

Lemma composeScore_ordered hr hr' wc u fc :
  ordered 0 1 hr hr' -> (0 <= u <= wc)%Z -> (0 <= fc <= 6)%Z ->
  ordered 35 95 (composeScore hr wc u fc) (composeScore hr' wc u fc).
Proof.
  intros Hr Hu Hf. unfold composeScore.
  assert (K : ordered 0 20 (min (ofZ 20) (mul hr (ofZ 20)))
                (min (ofZ 20) (mul hr' (ofZ 20)))).
  { apply (min_ordered 0 20); [|discriminate].
    apply (mul_ordered 0 1); [exact Hr | discriminate | discriminate | discriminate | good_bounds]. }
  assert (Ln : ordered 0 15
                 (min (ofZ 15) (mul (div (min (ofZ wc) (ofZ 200)) (ofZ 200)) (ofZ 15)))
                 (min (ofZ 15) (mul (div (min (ofZ wc) (ofZ 200)) (ofZ 200)) (ofZ 15)))).
  { apply (min_ordered 0 15); [|discriminate].
    apply (mul_ordered 0 1); [| discriminate | discriminate | discriminate | good_bounds].
    rewrite min_ofZ.
    apply (div_ordered (inject_Z (Z.min wc 200)) (inject_Z (Z.min wc 200)));
      [apply ordered_ofZ | reflexivity | | | good_bounds].
    - rewrite Qmult_0_l. change 0 with (inject_Z 0). rewrite <- Zle_Qle. lia.
    - rewrite Qmult_1_l. rewrite <- Zle_Qle. lia. }
  assert (Fl : ordered 0 15 (min (ofZ 15) (mul (ofZ fc) (ofZ 3)))
                 (min (ofZ 15) (mul (ofZ fc) (ofZ 3)))).
  { apply (min_ordered 0 18); [|discriminate].
    apply (mul_ordered (inject_Z fc) (inject_Z fc));
      [apply ordered_ofZ | discriminate | | | good_bounds].
    - rewrite <- inject_Z_mult. change 0 with (inject_Z 0). rewrite <- Zle_Qle. lia.
    - rewrite <- inject_Z_mult. change 18 with (inject_Z 18). rewrite <- Zle_Qle. lia. }
  assert (V : ordered 0 10
                (min (ofZ 10) (mul (div (ofZ u) (max (ofZ 1) (ofZ wc))) (ofZ 10)))
                (min (ofZ 10) (mul (div (ofZ u) (max (ofZ 1) (ofZ wc))) (ofZ 10)))).
  { apply (min_ordered 0 10); [|discriminate].
    apply (mul_ordered 0 1); [| discriminate | discriminate | discriminate | good_bounds].
    rewrite max_ofZ.
    apply (div_ordered (inject_Z u) (inject_Z u));
      [apply ordered_ofZ | | | | good_bounds].
    - change 0 with (inject_Z 0). rewrite <- Zlt_Qlt. lia.
    - rewrite Qmult_0_l. change 0 with (inject_Z 0). rewrite <- Zle_Qle. lia.
    - rewrite Qmult_1_l. rewrite <- Zle_Qle. lia. }
  apply (add_ordered 35 85 0 10); [| exact V | discriminate | discriminate | good_bounds].
  apply (sub_ordered 50 85 0 15); [| exact Fl | discriminate | discriminate | good_bounds].
  apply (add_ordered 50 70 0 15); [| exact Ln | discriminate | discriminate | good_bounds].
  apply (add_ordered 50 50 0 20); [| exact K | discriminate | discriminate | good_bounds].
  apply (ordered_ofZ 50).
Qed.

Lemma floor_half_lo n q : inject_Z n <= q -> (n <= Qfloor (q + (1 # 2)))%Z.
Proof.
  intros H. rewrite <- (Qfloor_Z n) at 1. apply Qfloor_resp_le. lra.
Qed.

Lemma floor_half_hi n q : q <= inject_Z n -> (Qfloor (q + (1 # 2)) <= n)%Z.
Proof.
  intros H. destruct (Z_le_gt_dec (Qfloor (q + (1 # 2))) n) as [L|G]; [exact L|].
  exfalso. assert (F := Qfloor_le (q + (1 # 2))).
  assert (K : inject_Z (n + 1) <= inject_Z (Qfloor (q + (1 # 2)))).
  { rewrite <- Zle_Qle. lia. }
  rewrite inject_Z_plus in K. change (inject_Z 1) with 1 in K. lra.
Qed.

Lemma finalScore_ordered x y :
  ordered 35 95 x y ->
  exists m n, round x = ofZ m /\ round y = ofZ n /\
              finalScore x = ofZ m /\ finalScore y = ofZ n /\
              (35 <= m)%Z /\ (m <= n)%Z /\ (n <= 95)%Z.
Proof.
  intros (a & b & -> & -> & A & B & C).
  assert (Fa : (35 <= Qfloor (a + (1 # 2)))%Z) by (apply floor_half_lo; exact A).
  assert (Fab : (Qfloor (a + (1 # 2)) <= Qfloor (b + (1 # 2)))%Z).
  { apply Qfloor_resp_le. lra. }
  assert (Fb : (Qfloor (b + (1 # 2)) <= 95)%Z) by (apply floor_half_hi; exact C).
  exists (Qfloor (a + (1 # 2))), (Qfloor (b + (1 # 2))).
  unfold finalScore. cbn [round]. fold (ofZ (Qfloor (a + (1 # 2)))).
  fold (ofZ (Qfloor (b + (1 # 2)))).
  rewrite !min_ofZ, !max_ofZ.
  repeat split; try assumption; try reflexivity; f_equal; lia.
Qed.

Lemma Qle_bool_false a b : Qle_bool a b = false -> b <= a.
Proof.
  intros T. apply Qlt_le_weak, Qnot_le_lt. intros C.
  apply Qle_bool_iff in C. congruence.
Qed.

Lemma finalScore_clamp x : finalScore x = round (clamp (ofZ 0) (ofZ 100) x).
Proof.
  destruct x as [|b|q].
  - reflexivity.
  - destruct b; vm_compute; reflexivity.
  - unfold finalScore, clamp. cbn [round].
    fold (ofZ (Qfloor (q + (1 # 2)))). rewrite min_ofZ, max_ofZ.
    cbn [min leb ofZ].
    destruct (Qle_bool (inject_Z 100) q) eqn:T.
    + apply Qle_bool_iff, floor_half_lo in T.
      replace (Z.max 0 (Z.min 100 (Qfloor (q + (1 # 2))))) with 100%Z by lia.
      vm_compute. reflexivity.
    + apply Qle_bool_false, floor_half_hi in T.
      unfold ofZ at 2. cbn [max leb].
      destruct (Qle_bool (inject_Z 0) q) eqn:T0.
      * apply Qle_bool_iff, floor_half_lo in T0.
        cbn [round]. unfold ofZ. do 2 f_equal. lia.
      * apply Qle_bool_false, floor_half_hi in T0.
        replace (Z.max 0 (Z.min 100 (Qfloor (q + (1 # 2))))) with 0%Z by lia.
        vm_compute. reflexivity.
Qed.
End Rounding.

Section StringFacts.
Local Open Scope string_scope.

Lemma prefix_append k s : String.prefix k s = true <-> exists b, s = k ++ b.
Proof.
  revert s. induction k as [|a k IH]; intros s.
  - destruct s; cbn; split; intros; try reflexivity; eexists; reflexivity.
  - destruct s as [|c s]; cbn.
    + split; [discriminate | intros (b & E); discriminate].
    + destruct (ascii_dec a c) as [->|NE].
      * rewrite IH. split; intros (b & E); exists b;
          [now rewrite E | cbn in E; injection E; auto].
      * split; [discriminate | intros (b & E); cbn in E; injection E; intros; congruence].
Qed.

Lemma includes_Substring s k : includes s k = true <-> Substring k s.
Proof.
  unfold Substring. split.
  - induction s as [|c s IH]; cbn [includes]; rewrite orb_true_iff; intros [P|P].
    + apply prefix_append in P as (b & E). exists "", b. exact E.
    + discriminate.
    + apply prefix_append in P as (b & E). exists "", b. exact E.
    + destruct (IH P) as (a & b & E). exists (String c a), b. cbn. now rewrite E.
  - intros (a & b & E). revert s E. induction a as [|c a IH]; intros s E.
    + cbn in E. destruct s; cbn [includes]; apply orb_true_iff; left;
        apply prefix_append; exists b; exact E.
    + cbn in E. subst s. cbn [includes]. apply orb_true_iff. right.
      apply IH. reflexivity.
Qed.

Lemma count_fold (p : string -> bool) l acc :
  fold_left (fun c k => (c + (if p k then 1 else 0))%Z) l acc
  = (acc + Z.of_nat (List.length (filter p l)))%Z.
Proof.
  revert acc. induction l as [|k l IH]; intros acc; cbn [fold_left filter].
  - cbn. lia.
  - rewrite IH. destruct (p k); cbn [List.length]; lia.
Qed.

Lemma filter_length_le {A} (p : A -> bool) l :
  (List.length (filter p l) <= List.length l)%nat.
Proof. induction l as [|x l IH]; cbn; [|destruct (p x); cbn]; lia. Qed.

Lemma countHits_filter text ks :
  countHits text ks
  = Z.of_nat (List.length (filter (fun k => includes text (toLowerCase k)) ks)).
Proof.
  unfold countHits.
  rewrite (count_fold (fun k => includes text (toLowerCase k))). lia.
Qed.

Lemma countFillers_filter text :
  countFillers text = Z.of_nat (List.length (filter (includes text) fillers)).
Proof. unfold countFillers. rewrite (count_fold (includes text)). lia. Qed.

Lemma countHits_bounds text ks :
  (0 <= countHits text ks <= Z.of_nat (List.length ks))%Z.
Proof.
  rewrite countHits_filter.
  assert (H := filter_length_le (fun k => includes text (toLowerCase k)) ks). lia.
Qed.

Lemma countFillers_bounds text : (0 <= countFillers text <= 6)%Z.
Proof.
  rewrite countFillers_filter.
  assert (H := filter_length_le (includes text) fillers).
  change (List.length fillers) with 6%nat in H. lia.
Qed.

Lemma setSize_le l : (setSize l <= List.length l)%nat.
Proof.
  unfold setSize. induction l as [|x l IH]; cbn; [lia|].
  destruct (in_dec string_dec x l); cbn; lia.
Qed.
End StringFacts.

Section ScorerFacts.
Local Open Scope string_scope.

Lemma includes_empty_text k : includes "" k = true <-> k = "".
Proof. destruct k; cbn; split; intros H; try reflexivity; discriminate. Qed.

Lemma toLowerCase_empty k : toLowerCase k = "" <-> k = "".
Proof. destruct k; cbn; split; intros H; try reflexivity; discriminate. Qed.

Lemma countHits_empty_text ks :
  countHits "" ks = Z.of_nat (count_occ string_dec ks "").
Proof.
  rewrite countHits_filter. f_equal.
  induction ks as [|k ks IH]; [reflexivity|].
  cbn [filter count_occ].
  destruct (includes "" (toLowerCase k)) eqn:I; destruct (string_dec k "") as [E|NE].
  - cbn [List.length]. now rewrite IH.
  - exfalso. apply NE. now apply toLowerCase_empty, includes_empty_text.
  - exfalso. subst k. discriminate.
  - exact IH.
Qed.

Lemma round64_zero q : Qnum q = 0%Z -> round64 q = Fin 0.
Proof. intros H. unfold round64, rnd. rewrite H. vm_compute. reflexivity. Qed.

Lemma hitRatioOf_zero len : hitRatioOf 0 len = ofZ 0.
Proof.
  unfold hitRatioOf. destruct (JsNumber.truthy (ofZ len)) eqn:T; [|reflexivity].
  cbn [ofZ div JsNumber.truthy] in *. apply negb_true_iff in T. rewrite T.
  apply round64_zero. reflexivity.
Qed.

Lemma lowerChar_class c :
  isWordChar (lowerChar c) || isSpace (lowerChar c) = true ->
  isLowerLetter (lowerChar c) || isDigit (lowerChar c)
  || isUnderscore (lowerChar c) || isSpace (lowerChar c) = true.
Proof.
  destruct c as [[] [] [] [] [] [] [] []]; vm_compute; intros H; exact H.
Qed.

Lemma normalizeText_filter s :
  list_ascii_of_string (normalizeText s)
  = filter (fun c => isWordChar c || isSpace c)
      (map lowerChar (list_ascii_of_string s)).
Proof.
  unfold normalizeText. induction s as [|c s IH]; [reflexivity|].
  cbn [toLowerCase removeAll list_ascii_of_string map filter].
  destruct (isWordChar (lowerChar c) || isSpace (lowerChar c));
    cbn [negb list_ascii_of_string]; now rewrite IH.
Qed.

Lemma composed_ordered t ks t' ks' :
  Z.of_nat (List.length (wordsOf (normalizeText t)))
  = Z.of_nat (List.length (wordsOf (normalizeText t'))) ->
  uniqueOf t = uniqueOf t' ->
  countFillers (normalizeText t) = countFillers (normalizeText t') ->
  List.length ks = List.length ks' ->
  (countHits (normalizeText t) ks <= countHits (normalizeText t') ks')%Z ->
  ordered 35 95 (rawScore t ks) (rawScore t' ks').
Proof.
  intros Hw Hu Hf Hk Hh. unfold rawScore, hitRatio.
  unfold uniqueOf in Hu. rewrite Hw, Hu, Hf, Hk.
  apply composeScore_ordered.
  - apply hitRatioOf_ordered;
      [apply countHits_bounds | exact Hh | apply countHits_bounds].
  - split; [lia|]. apply inj_le, setSize_le.
  - apply countFillers_bounds.
Qed.

Lemma rawScore_ordered t ks : ordered 35 95 (rawScore t ks) (rawScore t ks).
Proof. apply composed_ordered; reflexivity. Qed.

Lemma score_shape t ks :
  exists n, round (rawScore t ks) = ofZ n
            /\ score (scoreAnswer t ks) = ofZ n /\ (35 <= n <= 95)%Z.
Proof.
  destruct (finalScore_ordered _ _ (rawScore_ordered t ks))
    as (m & n & Rm & Rn & Fm & Fn & A & B & C).
  exists n. repeat split; try assumption. lia.
Qed.
End ScorerFacts.

(** ** Agreement with the reference operations

    On a grid of operands the four operations of [JsNumber] give the values
    of [SFadd], [SFsub], [SFmul] and [SFdiv] at 53 bits, [composeScore]
    gives the value of the same formula over them, and the two sides stay
    together through underflow and overflow. *)
Section ReferenceAgreement.

Example operations_agree_with_reference :
  forallb (fun a => forallb (fun b => opsAgree a b) (range (-12) 12))
    (range (-12) 12) = true.
Proof. vm_compute. reflexivity. Qed.

Example composeScore_agrees_with_reference :
  forallb
    (fun len =>
       forallb
         (fun hits =>
            forallb
              (fun wc =>
                 forallb
                   (fun u =>
                      forallb (fun fc => composeAgrees hits len wc u fc)
                        [0; 2; 6]%Z)
                   [0; wc / 3; wc]%Z)
              [0; 1; 3; 7; 9; 60; 199; 200; 250]%Z)
         (range 0 len))
    (range 0 5) = true.
Proof. vm_compute. reflexivity. Qed.

Example extremes_agree_with_reference :
  chainAgrees 45 (Fin (pow2 (-1000))) (div (ofZ 1) (ofZ 15))
    (SFldexp prec emax (sfOfZ 1) (-1000))
    (SFdiv prec emax (sfOfZ 1) (sfOfZ 15)) = true
  /\ chainAgrees 10 (Fin (pow2 1000)) (ofZ 15)
       (SFldexp prec emax (sfOfZ 1) 1000) (sfOfZ 15) = true.
Proof. split; vm_compute; reflexivity. Qed.

End ReferenceAgreement.

(** ** The properties of the specification *)

Section SpecificationProperties.
Local Open Scope string_scope.

(** C1.  The score that [scoreAnswer] returns is the specification's
    composition law: base 50, plus [min(20, hit_ratio * 20)], plus
    [min(15, min(word_count, 200) / 200 * 15)], minus
    [min(15, filler_count * 3)], plus
    [min(10, distinct_words / max(1, word_count) * 10)], clamped to
    [0, 100] and rounded; the source rounds first and clamps second, and
    the two orders agree on every Number. *)
Theorem scoreAnswer_composition_law (transcript : string) (keywords : list string) :
  score (scoreAnswer transcript keywords)
  = specScore (hits (scoreAnswer transcript keywords))
      (Z.of_nat (List.length keywords))
      (wordCount (scoreAnswer transcript keywords))
      (uniqueOf transcript)
      (fillerCount (scoreAnswer transcript keywords)).
Proof.
  unfold scoreAnswer. cbn [score hits wordCount fillerCount].
  rewrite finalScore_clamp. unfold specScore, composeScore, uniqueOf, hitRatioOf.
  cbn [JsNumber.truthy ofZ]. unfold isZero. cbn [Qnum inject_Z].
  destruct (Z.of_nat (List.length keywords) =? 0)%Z; reflexivity.
Qed.

(** C2.  In every result the score is an integer between 0 and 100, the
    word count is not negative, the hit count lies between 0 and the
    number of keywords, and the filler count is not negative. *)
Theorem scoreAnswer_result_ranges (transcript : string) (keywords : list string) :
  (exists n, score (scoreAnswer transcript keywords) = ofZ n /\ (0 <= n <= 100)%Z)
  /\ (0 <= wordCount (scoreAnswer transcript keywords))%Z
  /\ (0 <= hits (scoreAnswer transcript keywords)
      <= Z.of_nat (List.length keywords))%Z
  /\ (0 <= fillerCount (scoreAnswer transcript keywords))%Z.
Proof.
  split; [|split; [|split]].
  - destruct (score_shape transcript keywords) as (n & _ & E & B).
    exists n. split; [exact E | lia].
  - cbn [scoreAnswer wordCount]. lia.
  - apply countHits_bounds.
  - apply countFillers_bounds.
Qed.

(** C3, as the specification states it, fails: the empty string is a
    substring of the empty transcript, so an empty keyword is a hit and
    the score is 70. *)
Lemma scoreAnswer_empty_transcript_empty_keyword :
  scoreAnswer "" [""]
  = {| score := ofZ 70; wordCount := 0; hits := 1; fillerCount := 0 |}
  /\ scoreAnswer "" [""]
     <> {| score := ofZ 50; wordCount := 0; hits := 0; fillerCount := 0 |}.
Proof. split; [vm_compute; reflexivity | vm_compute; discriminate]. Qed.

(** What the empty transcript gives for any keyword list: no words, no
    fillers, and one hit for each keyword that is the empty string. *)
Lemma scoreAnswer_empty_transcript_counts (keywords : list string) :
  wordCount (scoreAnswer "" keywords) = 0%Z
  /\ fillerCount (scoreAnswer "" keywords) = 0%Z
  /\ hits (scoreAnswer "" keywords)
     = Z.of_nat (count_occ string_dec keywords "").
Proof.
  split; [reflexivity | split; [reflexivity|]]. apply countHits_empty_text.
Qed.

(** C3, amended.  For the empty transcript and every keyword list in which
    no keyword is the empty string, [scoreAnswer] returns score 50, word
    count 0, hits 0 and filler count 0. *)
Theorem scoreAnswer_empty_transcript (keywords : list string) :
  Forall (fun k => k <> "") keywords ->
  scoreAnswer "" keywords
  = {| score := ofZ 50; wordCount := 0; hits := 0; fillerCount := 0 |}.
Proof.
  intros H. unfold scoreAnswer.
  change (normalizeText "") with "".
  rewrite countHits_empty_text.
  replace (count_occ string_dec keywords "") with 0%nat.
  - change (Z.of_nat 0) with 0%Z. rewrite hitRatioOf_zero.
    vm_compute. reflexivity.
  - symmetry. apply count_occ_not_In. intros I.
    rewrite Forall_forall in H. exact (H "" I eq_refl).
Qed.

(** C3, amended, at the keywords "refresh" and "token". *)
Lemma scoreAnswer_empty_transcript_witness :
  Forall (fun k => k <> "") ["refresh"; "token"]
  /\ scoreAnswer "" ["refresh"; "token"]
     = {| score := ofZ 50; wordCount := 0; hits := 0; fillerCount := 0 |}.
Proof.
  assert (H : Forall (fun k => k <> "") ["refresh"; "token"])
    by (repeat constructor; discriminate).
  split; [exact H|].
  apply (scoreAnswer_empty_transcript ["refresh"; "token"]). exact H.
Defined.

(** C4, as the specification states it, fails: the underscore is neither
    a letter, a digit nor whitespace, and [normalizeText] keeps it. *)
Lemma normalizeText_keeps_underscore :
  normalizeText "a_b" = "a_b"
  /\ isAlphanumeric "_" = false /\ isSpace "_" = false
  /\ normalizeText "a_b" <> specNormalize "a_b".
Proof. repeat split; try reflexivity. vm_compute. discriminate. Qed.

(** C4, amended.  [normalizeText] lower-cases its argument and removes
    exactly the characters outside [\w] and [\s], where [\w] is letters,
    digits and the underscore; what is left holds only lower-case letters,
    digits, underscores and whitespace. *)
Theorem normalizeText_word_and_space (s : string) :
  list_ascii_of_string (normalizeText s)
  = filter (fun c => isWordChar c || isSpace c)
      (map lowerChar (list_ascii_of_string s))
  /\ Forall
       (fun c => isLowerLetter c || isDigit c || isUnderscore c || isSpace c = true)
       (list_ascii_of_string (normalizeText s)).
Proof.
  split; [apply normalizeText_filter|].
  rewrite normalizeText_filter. apply Forall_forall. intros c I.
  apply filter_In in I as [I P]. apply in_map_iff in I as (c0 & <- & _).
  apply lowerChar_class, P.
Qed.

(** C5.  The hit count is the number of keyword entries whose lower-cased
    form is a substring of the normalized transcript; matching is by
    containment, so "React" is a hit in "I used reactjs extensively". *)
Theorem hits_counts_substring_keywords (transcript : string) (keywords : list string) :
  hits (scoreAnswer transcript keywords)
  = Z.of_nat
      (List.length
         (filter (fun k => includes (normalizeText transcript) (toLowerCase k))
            keywords))
  /\ (forall k,
        includes (normalizeText transcript) (toLowerCase k) = true
        <-> Substring (toLowerCase k) (normalizeText transcript))
  /\ hits (scoreAnswer "I used reactjs extensively" ["React"]) = 1%Z.
Proof.
  split; [apply countHits_filter | split].
  - intros k. apply includes_Substring.
  - vm_compute. reflexivity.
Qed.

(** C6.  [scoreAnswer] yields a result on every input and no field is
    ever NaN or an infinity: with no keywords the hit ratio is 0 without
    any division (dividing by that zero length would not give a finite
    value), with keywords it is a finite value in [0, 1], and the raw and
    the final score are finite. *)
Theorem scoreAnswer_total (transcript : string) (keywords : list string) :
  hitRatio transcript [] = ofZ 0
  /\ (forall h q, div (ofZ h) (ofZ (Z.of_nat (List.length (@nil string)))) <> Fin q)
  /\ within 0 1 (hitRatio transcript keywords)
  /\ within 35 95 (rawScore transcript keywords)
  /\ exists n wc h f,
       scoreAnswer transcript keywords
       = {| score := ofZ n; wordCount := wc; hits := h; fillerCount := f |}.
Proof.
  split; [reflexivity | split; [|split; [|split]]].
  - intros h q. cbn [List.length Z.of_nat ofZ div]. unfold isZero.
    cbn [Qnum inject_Z Z.eqb]. destruct (h =? 0)%Z; discriminate.
  - apply within_ordered. unfold hitRatio.
    apply hitRatioOf_ordered; try apply countHits_bounds. reflexivity.
  - apply within_ordered, rawScore_ordered.
  - destruct (score_shape transcript keywords) as (n & _ & E & _).
    exists n. do 3 eexists. unfold scoreAnswer in *. cbn [score] in E.
    rewrite E. reflexivity.
Qed.

(** C7.  The filler count is the number of entries of the vocabulary
    "um", "uh", "like", "you know", "so", "actually" that are substrings
    of the normalized transcript, each entry counted once however often
    it occurs; "um so I like this" has 3. *)
Theorem fillerCount_counts_vocabulary (transcript : string) (keywords : list string) :
  fillers = ["um"; "uh"; "like"; "you know"; "so"; "actually"]
  /\ fillerCount (scoreAnswer transcript keywords)
     = Z.of_nat
         (List.length (filter (includes (normalizeText transcript)) fillers))
  /\ (forall f, includes (normalizeText transcript) f = true
                <-> Substring f (normalizeText transcript))
  /\ (fillerCount (scoreAnswer transcript keywords) <= 6)%Z
  /\ fillerCount (scoreAnswer "um so I like this" keywords) = 3%Z
  /\ fillerCount (scoreAnswer "um um so um so so um" keywords) = 2%Z.
Proof.
  split; [reflexivity | split; [apply countFillers_filter | split; [|split]]].
  - intros f. apply includes_Substring.
  - apply countFillers_bounds.
  - split; vm_compute; reflexivity.
Qed.

(** C8.  The worked example of the specification: 4 hits (".NET" is not
    matched) and 9 words. *)
Theorem scoreAnswer_refresh_tokens_example :
  hits (scoreAnswer
          "I implemented authentication using refresh tokens and secure storage."
          ["refresh"; "token"; "secure"; "storage"; ".NET"]) = 4%Z
  /\ wordCount (scoreAnswer
          "I implemented authentication using refresh tokens and secure storage."
          ["refresh"; "token"; "secure"; "storage"; ".NET"]) = 9%Z
  /\ includes
       (normalizeText
          "I implemented authentication using refresh tokens and secure storage.")
       (toLowerCase ".NET") = false.
Proof. repeat split; vm_compute; reflexivity. Qed.

(** C9.  Two inputs with the same word count, distinct-word count, filler
    count and number of keywords: if the second has at least as many hits
    as the first, its score is at least the first's. *)
Theorem score_monotone_in_hits (t1 t2 : string) (ks1 ks2 : list string) :
  wordCount (scoreAnswer t1 ks1) = wordCount (scoreAnswer t2 ks2) ->
  uniqueOf t1 = uniqueOf t2 ->
  fillerCount (scoreAnswer t1 ks1) = fillerCount (scoreAnswer t2 ks2) ->
  List.length ks1 = List.length ks2 ->
  (hits (scoreAnswer t1 ks1) <= hits (scoreAnswer t2 ks2))%Z ->
  leb (score (scoreAnswer t1 ks1)) (score (scoreAnswer t2 ks2)) = true.
Proof.
  intros Hw Hu Hf Hk Hh.
  destruct (finalScore_ordered _ _ (composed_ordered t1 ks1 t2 ks2 Hw Hu Hf Hk Hh))
    as (m & n & _ & _ & Fm & Fn & _ & B & _).
  change (score (scoreAnswer t1 ks1)) with (finalScore (rawScore t1 ks1)).
  change (score (scoreAnswer t2 ks2)) with (finalScore (rawScore t2 ks2)).
  rewrite Fm, Fn. cbn [leb ofZ]. rewrite Qle_bool_inject. now apply Z.leb_le.
Qed.

(** C9 at two transcripts that differ in one word, the second holding the
    keyword. *)
Lemma score_monotone_in_hits_witness :
  hits (scoreAnswer "I like cats" ["dogs"]) = 0%Z
  /\ hits (scoreAnswer "I like dogs" ["dogs"]) = 1%Z
  /\ leb (score (scoreAnswer "I like cats" ["dogs"]))
       (score (scoreAnswer "I like dogs" ["dogs"])) = true.
Proof.
  split; [reflexivity | split; [reflexivity|]].
  apply (score_monotone_in_hits "I like cats" "I like dogs" ["dogs"] ["dogs"]);
    try reflexivity.
  apply Z.leb_le. reflexivity.
Defined.

(** C10.  Before the clamp the score already lies in [35, 95]: the clamp
    changes nothing, the returned score is the rounded raw score, and it
    is an integer between 35 and 95. *)
Theorem score_between_35_and_95 (transcript : string) (keywords : list string) :
  within 35 95 (rawScore transcript keywords)
  /\ within 35 95 (round (rawScore transcript keywords))
  /\ score (scoreAnswer transcript keywords) = round (rawScore transcript keywords)
  /\ exists n, score (scoreAnswer transcript keywords) = ofZ n /\ (35 <= n <= 95)%Z.
Proof.
  destruct (score_shape transcript keywords) as (n & R & E & B).
  split; [apply within_ordered, rawScore_ordered | split; [|split]].
  - rewrite R. exists (inject_Z n). split; [reflexivity|].
    change 35 with (inject_Z 35). change 95 with (inject_Z 95).
    rewrite <- !Zle_Qle. exact B.
  - now rewrite R, E.
  - exists n. split; assumption.
Qed.
End SpecificationProperties.

(** * Further properties of the scorer *)
Section ScorerExtras.
Local Open Scope string_scope.

Lemma append_assoc (a b c : string) : (a ++ b) ++ c = a ++ (b ++ c).
Proof. induction a as [|x a IH]; cbn; [reflexivity | now rewrite IH]. Qed.

Lemma append_empty_r (a : string) : a ++ "" = a.
Proof. induction a as [|x a IH]; cbn; [reflexivity | now rewrite IH]. Qed.

Lemma lowerChar_idem c : lowerChar (lowerChar c) = lowerChar c.
Proof. destruct c as [[] [] [] [] [] [] [] []]; vm_compute; reflexivity. Qed.

Lemma isSpace_lowerChar c : isSpace (lowerChar c) = isSpace c.
Proof. destruct c as [[] [] [] [] [] [] [] []]; vm_compute; reflexivity. Qed.

Lemma toLowerCase_idem s : toLowerCase (toLowerCase s) = toLowerCase s.
Proof.
  induction s as [|c s IH]; cbn; [reflexivity|]. now rewrite lowerChar_idem, IH.
Qed.

Lemma toLowerCase_app a b : toLowerCase (a ++ b) = toLowerCase a ++ toLowerCase b.
Proof. induction a as [|c a IH]; cbn; [reflexivity | now rewrite IH]. Qed.

Lemma removeAll_app cls a b : removeAll cls (a ++ b) = removeAll cls a ++ removeAll cls b.
Proof.
  induction a as [|c a IH]; cbn; [reflexivity|].
  destruct (cls c); cbn; now rewrite IH.
Qed.

Lemma normalizeText_app a b : normalizeText (a ++ b) = normalizeText a ++ normalizeText b.
Proof. unfold normalizeText. now rewrite toLowerCase_app, removeAll_app. Qed.

Lemma normalizeText_cons c s :
  normalizeText (String c s)
  = if isWordChar (lowerChar c) || isSpace (lowerChar c)
    then String (lowerChar c) (normalizeText s) else normalizeText s.
Proof.
  unfold normalizeText. cbn [toLowerCase removeAll].
  now destruct (isWordChar (lowerChar c) || isSpace (lowerChar c)).
Qed.

Lemma normalizeText_toLowerCase s : normalizeText (toLowerCase s) = normalizeText s.
Proof. unfold normalizeText. now rewrite toLowerCase_idem. Qed.

Lemma normalizeText_idem s : normalizeText (normalizeText s) = normalizeText s.
Proof.
  induction s as [|c s IH]; [reflexivity|].
  rewrite normalizeText_cons.
  destruct (isWordChar (lowerChar c) || isSpace (lowerChar c)) eqn:K; [|exact IH].
  rewrite normalizeText_cons, lowerChar_idem, K. now rewrite IH.
Qed.

(** X1.  Normalizing twice is normalizing once, and a transcript scores
    exactly as its normalized form does: letter case and punctuation of
    the transcript never reach the result. *)
Theorem scoreAnswer_of_normalized (transcript : string) (keywords : list string) :
  normalizeText (normalizeText transcript) = normalizeText transcript
  /\ scoreAnswer (normalizeText transcript) keywords = scoreAnswer transcript keywords.
Proof.
  split; [apply normalizeText_idem|].
  unfold scoreAnswer. now rewrite normalizeText_idem.
Qed.

Lemma countHits_map_lower text ks :
  countHits text (map toLowerCase ks) = countHits text ks.
Proof.
  rewrite !countHits_filter. f_equal.
  induction ks as [|k ks IH]; [reflexivity|].
  cbn [map filter]. rewrite toLowerCase_idem.
  destruct (includes text (toLowerCase k)); cbn [List.length]; now rewrite IH.
Qed.

(** X2.  The scorer is blind to letter case on both sides: lower-casing
    the transcript, the keywords, or both, changes no field of the
    result. *)
Theorem scoreAnswer_case_insensitive (transcript : string) (keywords : list string) :
  scoreAnswer (toLowerCase transcript) keywords = scoreAnswer transcript keywords
  /\ scoreAnswer transcript (map toLowerCase keywords) = scoreAnswer transcript keywords
  /\ scoreAnswer (toLowerCase transcript) (map toLowerCase keywords)
     = scoreAnswer transcript keywords.
Proof.
  assert (A : forall t ks, scoreAnswer (toLowerCase t) ks = scoreAnswer t ks).
  { intros t ks. unfold scoreAnswer. now rewrite normalizeText_toLowerCase. }
  assert (B : forall t ks, scoreAnswer t (map toLowerCase ks) = scoreAnswer t ks).
  { intros t ks. unfold scoreAnswer. now rewrite countHits_map_lower, length_map. }
  split; [apply A | split; [apply B | now rewrite A, B]].
Qed.

Lemma normalizeText_chars s c :
  In c (list_ascii_of_string (normalizeText s)) -> keptChar c = true.
Proof.
  rewrite normalizeText_filter. intros I. apply filter_In in I. apply I.
Qed.

Lemma chars_app a b :
  list_ascii_of_string (a ++ b) = (list_ascii_of_string a ++ list_ascii_of_string b)%list.
Proof. induction a as [|c a IH]; cbn; [reflexivity | now rewrite IH]. Qed.

Lemma Substring_chars k s c :
  Substring k s -> In c (list_ascii_of_string k) -> In c (list_ascii_of_string s).
Proof.
  intros (a & b & ->) I. rewrite !chars_app. apply in_or_app. right.
  apply in_or_app. now left.
Qed.

Lemma unmatchable_not_included t k :
  matchable k = false -> includes (normalizeText t) (toLowerCase k) = false.
Proof.
  intros M. destruct (includes (normalizeText t) (toLowerCase k)) eqn:I; [|reflexivity].
  exfalso. apply includes_Substring in I.
  assert (F : forallb keptChar (list_ascii_of_string (toLowerCase k)) = true).
  { apply forallb_forall. intros c Ic.
    apply (normalizeText_chars t), (Substring_chars _ _ _ I Ic). }
  unfold matchable in M. congruence.
Qed.

Lemma filter_length_le2 {A} (p q : A -> bool) l :
  (forall x, p x = true -> q x = true) ->
  (List.length (filter p l) <= List.length (filter q l))%nat.
Proof.
  intros H. induction l as [|x l IH]; cbn; [lia|].
  destruct (p x) eqn:P.
  - rewrite (H x P). cbn. lia.
  - destruct (q x); cbn; lia.
Qed.

(** X3.  A keyword whose lower-cased form holds a character outside [\w]
    and [\s] is never hit, whatever the transcript: the hit count is at
    most the number of keywords free of such characters.  With the
    keywords of the second default question, ".NET" among them, no
    transcript reaches more than 4 hits of 5. *)
Theorem hits_bounded_by_matchable (transcript : string) (keywords : list string) :
  (hits (scoreAnswer transcript keywords)
   <= Z.of_nat (List.length (filter matchable keywords)))%Z
  /\ (hits (scoreAnswer transcript ["refresh"; "token"; "secure"; "storage"; ".NET"])
      <= 4)%Z.
Proof.
  assert (G : forall ks,
             (countHits (normalizeText transcript) ks
              <= Z.of_nat (List.length (filter matchable ks)))%Z).
  { intros ks. rewrite countHits_filter. apply inj_le, filter_length_le2.
    intros k I. destruct (matchable k) eqn:M; [reflexivity|].
    rewrite (unmatchable_not_included transcript k M) in I. discriminate. }
  split; [apply G|]. exact (G ["refresh"; "token"; "secure"; "storage"; ".NET"]).
Qed.

Lemma Substring_app_r k a b : Substring k a -> Substring k (a ++ b).
Proof.
  intros (x & y & ->). exists x, (y ++ b). now rewrite !append_assoc.
Qed.

Lemma Substring_app_l k a b : Substring k b -> Substring k (a ++ b).
Proof.
  intros (x & y & ->). exists (a ++ x), y. now rewrite !append_assoc.
Qed.

Lemma includes_app_r s u k : includes s k = true -> includes (s ++ u) k = true.
Proof. rewrite !includes_Substring. apply Substring_app_r. Qed.

Lemma includes_app_l s u k : includes u k = true -> includes (s ++ u) k = true.
Proof. rewrite !includes_Substring. apply Substring_app_l. Qed.

(** X4.  Saying more never loses a match: when text is added after or
    before a transcript, the hit count and the filler count do not go
    down. *)
Theorem counts_grow_with_transcript (transcript more : string) (keywords : list string) :
  (hits (scoreAnswer transcript keywords)
   <= hits (scoreAnswer (transcript ++ more) keywords))%Z
  /\ (hits (scoreAnswer transcript keywords)
      <= hits (scoreAnswer (more ++ transcript) keywords))%Z
  /\ (fillerCount (scoreAnswer transcript keywords)
      <= fillerCount (scoreAnswer (transcript ++ more) keywords))%Z
  /\ (fillerCount (scoreAnswer transcript keywords)
      <= fillerCount (scoreAnswer (more ++ transcript) keywords))%Z.
Proof.
  cbn [scoreAnswer hits fillerCount].
  rewrite !normalizeText_app, !countHits_filter, !countFillers_filter.
  repeat split; apply inj_le, filter_length_le2; intros k;
    first [apply includes_app_r | apply includes_app_l].
Qed.

Lemma splitFrom_space cur inRun a c b :
  isSpace c = true -> (inRun = true -> cur = "") ->
  filter JsString.truthy (splitFrom cur inRun (a ++ String c b))
  = (filter JsString.truthy (splitFrom cur inRun a)
     ++ filter JsString.truthy (splitFrom "" true b))%list.
Proof.
  intros Hc. revert cur inRun. induction a as [|x a IH]; intros cur inRun Hi.
  - cbn [String.append splitFrom]. rewrite Hc. destruct inRun.
    + rewrite (Hi eq_refl). reflexivity.
    + cbn [filter]. destruct (JsString.truthy (revString "" cur)); reflexivity.
  - cbn [String.append splitFrom]. destruct (isSpace x).
    + destruct inRun.
      * apply IH. reflexivity.
      * cbn [filter]. rewrite IH by reflexivity.
        destruct (JsString.truthy (revString "" cur)); reflexivity.
    + apply IH. discriminate.
Qed.

Lemma splitFrom_after_space b :
  filter JsString.truthy (splitFrom "" true b)
  = filter JsString.truthy (splitFrom "" false b).
Proof.
  destruct b as [|x b]; [reflexivity|]. cbn [splitFrom].
  destruct (isSpace x); reflexivity.
Qed.

Lemma wordsOf_space a c b :
  isSpace c = true -> wordsOf (a ++ String c b) = (wordsOf a ++ wordsOf b)%list.
Proof.
  intros Hc. unfold wordsOf, splitSpaces.
  rewrite (splitFrom_space "" false a c b Hc) by discriminate.
  now rewrite splitFrom_after_space.
Qed.

(** X5.  Words add up across a space: the word count of [a + ' ' + b] is
    the word count of [a] plus that of [b].  So the example phrase, put
    after any transcript, adds exactly 9 words. *)
Theorem wordCount_adds_over_space (a b : string) (keywords : list string) :
  wordCount (scoreAnswer (a ++ " " ++ b) keywords)
  = (wordCount (scoreAnswer a keywords) + wordCount (scoreAnswer b keywords))%Z
  /\ wordCount (scoreAnswer (a ++ " " ++ examplePhrase) keywords)
     = (wordCount (scoreAnswer a keywords) + 9)%Z.
Proof.
  assert (G : forall b', wordCount (scoreAnswer (a ++ " " ++ b') keywords)
              = (wordCount (scoreAnswer a keywords)
                 + wordCount (scoreAnswer b' keywords))%Z).
  { intros b'. cbn [scoreAnswer wordCount].
    rewrite !normalizeText_app.
    change (normalizeText " ") with " ". cbn [String.append].
    rewrite wordsOf_space by reflexivity. rewrite length_app. lia. }
  split; [apply G|]. rewrite G. f_equal.
Qed.

Lemma countHits_app text ks1 ks2 :
  countHits text (ks1 ++ ks2) = (countHits text ks1 + countHits text ks2)%Z.
Proof. rewrite !countHits_filter, filter_app, length_app. lia. Qed.

Lemma countHits_perm text ks ks' :
  Permutation.Permutation ks ks' -> countHits text ks = countHits text ks'.
Proof.
  intros P. rewrite !countHits_filter. f_equal.
  induction P as [|x l l' P IH|x y l|l l' l'' P1 IH1 P2 IH2]; cbn [filter].
  - reflexivity.
  - destruct (includes text (toLowerCase x)); cbn [List.length]; now rewrite IH.
  - destruct (includes text (toLowerCase x)), (includes text (toLowerCase y)); reflexivity.
  - now rewrite IH1.
Qed.

(** X6.  The order of the keywords does not matter: two keyword lists that
    are rearrangements of each other give the same result.  (A keyword
    listed twice counts twice, the list is not a set.) *)
Theorem scoreAnswer_keyword_order (transcript : string) (ks ks' : list string) :
  Permutation.Permutation ks ks' ->
  scoreAnswer transcript ks = scoreAnswer transcript ks'.
Proof.
  intros P. unfold scoreAnswer.
  now rewrite (countHits_perm _ _ _ P), (Permutation.Permutation_length P).
Qed.

(** X6 at the keywords of the second default question, reversed. *)
Lemma scoreAnswer_keyword_order_witness :
  scoreAnswer examplePhrase ["refresh"; "token"; "secure"; "storage"; ".NET"]
  = scoreAnswer examplePhrase [".NET"; "storage"; "secure"; "token"; "refresh"].
Proof.
  apply scoreAnswer_keyword_order.
  change [".NET"; "storage"; "secure"; "token"; "refresh"]
    with (rev ["refresh"; "token"; "secure"; "storage"; ".NET"]).
  apply Permutation.Permutation_rev.
Defined.
End ScorerExtras.

(** * Properties of the assistant *)
Section AssistantFacts.
Local Open Scope string_scope.

Lemma trimStart_empty s : trimStart s = "" <-> blank s = true.
Proof.
  unfold blank. induction s as [|c s IH]; cbn; [tauto|].
  destruct (isSpace c); cbn; [exact IH|]. split; discriminate.
Qed.

Lemma trimStart_head s : trimStart s = "" \/ exists c r, trimStart s = String c r /\ isSpace c = false.
Proof.
  induction s as [|c s IH]; cbn; [now left|].
  destruct (isSpace c) eqn:E; [exact IH|]. right. now exists c, s.
Qed.

Lemma trimEnd_nonspace c r : isSpace c = false -> trimEnd (String c r) <> "".
Proof. intros E. cbn. rewrite E. destruct (trimEnd r); discriminate. Qed.

Lemma trim_empty s : trim s = "" <-> blank s = true.
Proof.
  unfold trim. rewrite <- trimStart_empty.
  destruct (trimStart_head s) as [E|(c & r & E & Hc)]; rewrite E.
  - cbn. tauto.
  - split; [intros H; now apply trimEnd_nonspace in H | discriminate].
Qed.

Lemma truthy_lower s : JsString.truthy (toLowerCase s) = JsString.truthy s.
Proof. destruct s; reflexivity. Qed.

Lemma truthy_false s : JsString.truthy s = false <-> s = "".
Proof. destruct s; cbn; split; intros; try reflexivity; discriminate. Qed.

(** X7.  The assistant answers with its prompt, and no source, exactly for
    the queries that are empty or all whitespace. *)
Theorem answerQuery_prompt_iff_blank (q : string) (PROFILE : Profile.t) :
  answerQuery q PROFILE = (AskAnything, NoSource) <-> blank q = true.
Proof.
  rewrite <- trim_empty, <- truthy_false, <- (truthy_lower (trim q)).
  unfold answerQuery.
  destruct (JsString.truthy (toLowerCase (trim q))); cbn [negb].
  - split; [|discriminate].
    repeat match goal with
           | |- context [if ?b then _ else _] => destruct b
           end; discriminate.
  - tauto.
Qed.

Lemma trimStart_lower s : trimStart (toLowerCase s) = toLowerCase (trimStart s).
Proof.
  induction s as [|c s IH]; [reflexivity|]. cbn [toLowerCase trimStart].
  rewrite isSpace_lowerChar. destruct (isSpace c); [exact IH | reflexivity].
Qed.

Lemma trimEnd_lower s : trimEnd (toLowerCase s) = toLowerCase (trimEnd s).
Proof.
  induction s as [|c s IH]; [reflexivity|]. cbn [toLowerCase trimEnd].
  rewrite IH, isSpace_lowerChar.
  destruct (trimEnd s); cbn [toLowerCase]; [destruct (isSpace c)|]; reflexivity.
Qed.

Lemma trim_lower s : trim (toLowerCase s) = toLowerCase (trim s).
Proof. unfold trim. now rewrite trimStart_lower, trimEnd_lower. Qed.

Lemma trimStart_blank_app pre s : blank pre = true -> trimStart (pre ++ s) = trimStart s.
Proof.
  unfold blank. induction pre as [|c pre IH]; cbn; [reflexivity|].
  intros H. apply andb_true_iff in H as [Hc H]. rewrite Hc. now apply IH.
Qed.

Lemma trimEnd_blank post : blank post = true -> trimEnd post = "".
Proof.
  unfold blank. induction post as [|c post IH]; cbn; [reflexivity|].
  intros H. apply andb_true_iff in H as [Hc H]. now rewrite (IH H), Hc.
Qed.

Lemma trimEnd_app_blank s post : blank post = true -> trimEnd (s ++ post) = trimEnd s.
Proof.
  intros H. induction s as [|c s IH]; cbn [String.append trimEnd].
  - now apply trimEnd_blank.
  - now rewrite IH.
Qed.

Lemma trim_app_blank s post : blank post = true -> trim (s ++ post) = trim s.
Proof.
  intros H. unfold trim. induction s as [|c s IH]; cbn [String.append trimStart].
  - now rewrite (proj2 (trimStart_empty post) H).
  - destruct (isSpace c); [exact IH|].
    change (String c (s ++ post)) with (String c s ++ post).
    now apply trimEnd_app_blank.
Qed.

Lemma trim_padding pre q post :
  blank pre = true -> blank post = true -> trim (pre ++ q ++ post) = trim q.
Proof.
  intros Hpre Hpost. unfold trim at 1. rewrite trimStart_blank_app by exact Hpre.
  fold (trim (q ++ post)). now apply trim_app_blank.
Qed.

(** X8.  The assistant ignores letter case and the whitespace around a
    query: a query, its lower-cased form and the query between two runs of
    whitespace all get the same answer and source. *)
Theorem answerQuery_case_and_padding (q pre post : string) (PROFILE : Profile.t) :
  blank pre = true -> blank post = true ->
  answerQuery (toLowerCase q) PROFILE = answerQuery q PROFILE
  /\ answerQuery (pre ++ q ++ post) PROFILE = answerQuery q PROFILE.
Proof.
  intros Hpre Hpost. unfold answerQuery.
  rewrite trim_lower, toLowerCase_idem, (trim_padding pre q post Hpre Hpost).
  split; reflexivity.
Qed.

(** X8 at a query typed in capitals between spaces. *)
Lemma answerQuery_case_and_padding_witness :
  answerQuery (toLowerCase "NFC Wallet")
    (Profile.mk "Frontend developer" ["React"; "Tailwind"] [])
  = answerQuery "NFC Wallet"
      (Profile.mk "Frontend developer" ["React"; "Tailwind"] [])
  /\ answerQuery ("  " ++ "NFC Wallet" ++ " ")
       (Profile.mk "Frontend developer" ["React"; "Tailwind"] [])
     = answerQuery "NFC Wallet"
         (Profile.mk "Frontend developer" ["React"; "Tailwind"] []).
Proof.
  apply (answerQuery_case_and_padding "NFC Wallet" "  " " "); reflexivity.
Defined.

Lemma Substring_trans a b c : Substring a b -> Substring b c -> Substring a c.
Proof.
  intros (x & y & ->) (u & v & ->). exists (u ++ x), (y ++ v).
  now rewrite !append_assoc.
Qed.

Lemma includes_trans s k k' :
  includes k k' = true -> includes s k = true -> includes s k' = true.
Proof. rewrite !includes_Substring. apply Substring_trans. Qed.

(** X9.  A query that mentions "react native" gets the React answer, not
    the mobile one: the test for "react" comes first and "react native"
    contains it.  The mobile answer is given only for "expo" or "mobile",
    in a query without "react native". *)
Theorem answerQuery_react_native_shadowed (q : string) (PROFILE : Profile.t) :
  (includes (toLowerCase (trim q)) "react native" = true ->
   answerQuery q PROFILE
   = (FocusOnReact
        (Profile.summary PROFILE
         ++ " I focus on React, TypeScript and component-driven development."),
      SummarySkills))
  /\ (fst (answerQuery q PROFILE) = MobileApps ->
      includes (toLowerCase (trim q)) "expo"
      || includes (toLowerCase (trim q)) "mobile" = true
      /\ includes (toLowerCase (trim q)) "react native" = false).
Proof.
  unfold answerQuery. set (qn := toLowerCase (trim q)).
  assert (R : includes qn "react native" = true -> includes qn "react" = true).
  { apply includes_trans. reflexivity. }
  split.
  - intros H. rewrite (R H).
    destruct qn; [discriminate H | reflexivity].
  - destruct (JsString.truthy qn); cbn [negb fst]; [|discriminate].
    destruct (includes qn "react") eqn:E; cbn [orb]; [discriminate|].
    destruct (includes qn "react native") eqn:N; [discriminate (R eq_refl)|].
    cbn [orb].
    destruct (includes qn "frontend"); [discriminate|].
    destruct (includes qn "expo" || includes qn "mobile"); [tauto|].
    repeat match goal with
           | |- context [if ?b then _ else _] => destruct b
           end; discriminate.
Qed.

(** X9 at a question about React Native. *)
Lemma answerQuery_react_native_shadowed_witness :
  includes (toLowerCase (trim "Do you know React Native?")) "react native" = true
  /\ answerQuery "Do you know React Native?"
       (Profile.mk "Frontend developer" ["React"; "Tailwind"] [])
     = (FocusOnReact
          ("Frontend developer"
           ++ " I focus on React, TypeScript and component-driven development."),
        SummarySkills).
Proof.
  split; [reflexivity|].
  apply (proj1 (answerQuery_react_native_shadowed "Do you know React Native?"
                  (Profile.mk "Frontend developer" ["React"; "Tailwind"] []))).
  reflexivity.
Defined.

Lemma trimStart_suffix s : exists pre, s = pre ++ trimStart s.
Proof.
  induction s as [|c s (pre & E)]; [now exists ""|]. cbn [trimStart].
  destruct (isSpace c); [|now exists ""].
  exists (String c pre). cbn. now rewrite <- E.
Qed.

Lemma trimEnd_prefix s : exists post, s = trimEnd s ++ post.
Proof.
  induction s as [|c s (post & E)]; [now exists ""|]. cbn [trimEnd].
  destruct (trimEnd s) eqn:T.
  - destruct (isSpace c); [now exists (String c s)|].
    exists post. cbn. now rewrite E at 1.
  - exists post. cbn. now rewrite E at 1.
Qed.

Lemma Substring_trim s : Substring (trim s) s.
Proof.
  destruct (trimStart_suffix s) as (pre & E).
  destruct (trimEnd_prefix (trimStart s)) as (post & F).
  exists pre, post. unfold trim. now rewrite <- F.
Qed.

Lemma Substring_lower k s : Substring k s -> Substring (toLowerCase k) (toLowerCase s).
Proof.
  intros (a & b & ->). exists (toLowerCase a), (toLowerCase b).
  now rewrite !toLowerCase_app.
Qed.

Lemma Substring_refl s : Substring s s.
Proof. exists "", "". cbn. now rewrite append_empty_r. Qed.

Lemma Substring_join sep l x : In x l -> Substring x (join sep l).
Proof.
  unfold join. induction l as [|y l IH]; [intros []|].
  intros [->|I].
  - destruct l as [|z l]; cbn [String.concat]; [apply Substring_refl|].
    apply Substring_app_r, Substring_refl.
  - destruct l as [|z l]; [destruct I|]. cbn [String.concat].
    apply Substring_app_l, Substring_app_l, IH, I.
Qed.

(** X10.  Whatever the profile holds can be asked back: the summary, a
    skill or a project summary, typed as it is (and not blank), gets an
    answer with a source, never the "could not find" reply. *)
Theorem answerQuery_finds_profile_text (x : string) (PROFILE : Profile.t) :
  In x (Profile.summary PROFILE
        :: Profile.skills PROFILE
           ++ map Project.summary (Profile.projects PROFILE)) ->
  blank x = false ->
  snd (answerQuery x PROFILE) <> NoSource
  /\ fst (answerQuery x PROFILE) <> NotFound.
Proof.
  intros I B.
  assert (T : JsString.truthy (toLowerCase (trim x)) = true).
  { rewrite truthy_lower. destruct (JsString.truthy (trim x)) eqn:E; [reflexivity|].
    apply truthy_false, trim_empty in E. congruence. }
  assert (J : includes (joinedProfile PROFILE) (toLowerCase (trim x)) = true).
  { apply includes_Substring. unfold joinedProfile. apply Substring_lower.
    eapply Substring_trans; [apply Substring_trim | apply Substring_join, I]. }
  unfold answerQuery. rewrite T, J. cbn [negb].
  repeat match goal with
         | |- context [if ?b then _ else _] => destruct b
         end; split; discriminate.
Qed.

(** X10 at a skill that none of the fixed topics covers. *)
Lemma answerQuery_finds_profile_text_witness :
  snd (answerQuery "Tailwind"
         (Profile.mk "Frontend developer" ["React"; "Tailwind"]
            [Project.mk "Delivery App" "Production-ready mobile app."]))
  <> NoSource
  /\ fst (answerQuery "Tailwind"
            (Profile.mk "Frontend developer" ["React"; "Tailwind"]
               [Project.mk "Delivery App" "Production-ready mobile app."]))
     <> NotFound.
Proof.
  apply answerQuery_finds_profile_text; [|reflexivity].
  cbn. right. right. left. reflexivity.
Defined.
End AssistantFacts.

(** * Properties of the simulator's state *)
Section SimulatorFacts.
Local Open Scope string_scope.
Local Open Scope Z_scope.

Lemma questionAt_inRange questions i :
  0 <= i < Z.of_nat (List.length questions) ->
  exists q, questionAt questions i = Some q /\ In q questions.
Proof.
  intros H. unfold questionAt.
  destruct (Z.ltb_spec i 0) as [L|_]; [lia|].
  destruct (nth_error questions (Z.to_nat i)) as [q|] eqn:E.
  - exists q. split; [reflexivity | eapply nth_error_In; exact E].
  - apply nth_error_None in E. lia.
Qed.

Lemma step_inRange questions e st :
  inRange questions st ->
  exists st', step questions e st = Some st' /\ inRange questions st'.
Proof.
  unfold inRange. intros H.
  destruct e; cbn [step];
    try (eexists; split; [reflexivity|]; cbn; try destruct (Sim.listening st);
         try destruct recognizer; cbn; lia).
  unfold submitAnswer. cbn [stopListening Sim.currentIdx Sim.transcript Sim.history].
  destruct (questionAt_inRange questions _ H) as (q & -> & _).
  eexists; split; [reflexivity|]. cbn. lia.
Qed.

Lemma run_inRange questions es st :
  inRange questions st ->
  exists st', run questions es st = Some st' /\ inRange questions st'.
Proof.
  revert st. induction es as [|e es IH]; intros st H; cbn [run].
  - now exists st.
  - destruct (step_inRange questions e st H) as (st1 & -> & H1). now apply IH.
Qed.

(** X11.  With at least one question no handler ever throws: whatever the
    user and the browser do, in whatever order, the run goes through and
    the index stays inside the question list. *)
Theorem simulator_never_throws (questions : list Question.t) (es : list event) :
  questions <> [] ->
  exists st, run questions es initialState = Some st
             /\ 0 <= Sim.currentIdx st < Z.of_nat (List.length questions).
Proof.
  intros H. apply run_inRange. unfold inRange. cbn.
  destruct questions; [congruence | cbn [List.length]; lia].
Qed.

(** X11 on the default questions, with five submits for four questions. *)
Lemma simulator_never_throws_witness :
  exists st,
    run DEFAULT_QUESTIONS
      [TypeText "I debug with logs"; ClickSubmit "d1"; ClickSubmit "d2";
       ToggleRecording true true; SpeechResults 0 [mkSpeechResult true "calm"];
       ClickSubmit "d3"; ClickSubmit "d4"; ClickSubmit "d5"]
      initialState = Some st
    /\ 0 <= Sim.currentIdx st < Z.of_nat (List.length DEFAULT_QUESTIONS).
Proof. apply simulator_never_throws. discriminate. Defined.



Lemma step_soundHistory questions e st st' :
  step questions e st = Some st' ->
  Forall (soundEntry questions) (Sim.history st) ->
  Forall (soundEntry questions) (Sim.history st').
Proof.
  intros S H. destruct e; cbn [step] in S;
    try (injection S as <-; cbn; try destruct (Sim.listening st);
         try destruct recognizer; cbn; (exact H || constructor)).
  unfold submitAnswer in S.
  cbn [stopListening Sim.currentIdx Sim.transcript Sim.history] in S.
  unfold questionAt in S. destruct (Sim.currentIdx st <? 0); [discriminate|].
  destruct (nth_error questions (Z.to_nat (Sim.currentIdx st))) as [q|] eqn:E;
    [|discriminate].
  injection S as <-. cbn [Sim.history]. apply Forall_app. split; [exact H|].
  constructor; [|constructor]. exists q. cbn.
  split; [eapply nth_error_In; exact E|]. repeat split.
  destruct (score_shape (Sim.transcript st) (Question.keywords q)) as (n & _ & Sn & B).
  now exists n.
Qed.

(** X13.  Every entry that ever gets into the history is sound: it holds
    the text of one of the questions, the result of [scoreAnswer] on its
    own transcript and that question's keywords, and a score equal to the
    result's, an integer from 35 to 95. *)
Theorem history_entries_sound (questions : list Question.t) (es : list event) :
  match run questions es initialState with
  | Some st => Forall (soundEntry questions) (Sim.history st)
  | None => True
  end.
Proof.
  assert (G : forall st, Forall (soundEntry questions) (Sim.history st) ->
              match run questions es st with
              | Some st' => Forall (soundEntry questions) (Sim.history st')
              | None => True
              end).
  { induction es as [|e es IH]; intros st H; cbn [run]; [exact H|].
    destruct (step questions e st) as [st1|] eqn:S; [|exact I].
    apply IH. eapply step_soundHistory; eassumption. }
  apply G. constructor.
Qed.

Lemma step_counts questions e st :
  inRange questions st -> isReset e = false ->
  exists st', step questions e st = Some st'
    /\ inRange questions st'
    /\ List.length (Sim.history st')
       = (List.length (Sim.history st) + (if isSubmit e then 1 else 0))%nat
    /\ Sim.currentIdx st'
       = Z.min (Z.of_nat (List.length questions) - 1)
           (Sim.currentIdx st + (if isSubmit e then 1 else 0)).
Proof.
  unfold inRange. intros H R.
  destruct e; try discriminate R; cbn [step isSubmit];
    try (eexists; split; [reflexivity|]; cbn; try destruct (Sim.listening st);
         try destruct recognizer; cbn; repeat split; lia).
  unfold submitAnswer. cbn [stopListening Sim.currentIdx Sim.transcript Sim.history].
  destruct (questionAt_inRange questions _ H) as (q & -> & _).
  eexists; split; [reflexivity|]. cbn. rewrite length_app. cbn. repeat split; lia.
Qed.

Lemma run_counts questions es st :
  inRange questions st -> forallb (fun e => negb (isReset e)) es = true ->
  exists st', run questions es st = Some st'
    /\ List.length (Sim.history st')
       = (List.length (Sim.history st) + countSubmits es)%nat
    /\ Sim.currentIdx st'
       = Z.min (Z.of_nat (List.length questions) - 1)
           (Sim.currentIdx st + Z.of_nat (countSubmits es)).
Proof.
  unfold countSubmits. revert st.
  induction es as [|e es IH]; intros st H R; cbn [run forallb filter] in *.
  - exists st. unfold inRange in H. cbn. repeat split; lia.
  - apply andb_true_iff in R as [Re R]. apply negb_true_iff in Re.
    destruct (step_counts questions e st H Re) as (st1 & -> & H1 & L1 & I1).
    destruct (IH st1 H1 R) as (st2 & -> & L2 & I2).
    exists st2. split; [reflexivity|]. rewrite L2, I2, L1, I1.
    unfold inRange in H. destruct (isSubmit e); cbn [List.length]; split; lia.
Qed.

(** X14.  Between resets the history holds one entry per submit and the
    index is the number of submits, stopped at the last question: once
    every question has had an answer, further answers are all taken
    against the last question. *)
Theorem submits_counted (questions : list Question.t) (es : list event) :
  questions <> [] ->
  forallb (fun e => negb (isReset e)) es = true ->
  exists st, run questions es initialState = Some st
    /\ List.length (Sim.history st) = countSubmits es
    /\ Sim.currentIdx st
       = Z.min (Z.of_nat (countSubmits es)) (Z.of_nat (List.length questions) - 1).
Proof.
  intros Q R.
  assert (H : inRange questions initialState).
  { unfold inRange. cbn. destruct questions; [congruence | cbn [List.length]; lia]. }
  destruct (run_counts questions es initialState H R) as (st & E & L & I).
  exists st. split; [exact E|]. cbn in L, I. split; [exact L | lia].
Qed.

(** X14 on the default questions: six submits leave six entries and the
    index at the fourth question. *)
Lemma submits_counted_witness :
  exists st,
    run DEFAULT_QUESTIONS
      [ClickSubmit "d1"; TypeText "steps"; ClickSubmit "d2"; ClickSubmit "d3";
       ClickSubmit "d4"; ClickInsertExample; ClickSubmit "d5"; ClickSubmit "d6"]
      initialState = Some st
    /\ List.length (Sim.history st) = 6%nat
    /\ Sim.currentIdx st = 3.
Proof.
  apply (submits_counted DEFAULT_QUESTIONS
           [ClickSubmit "d1"; TypeText "steps"; ClickSubmit "d2"; ClickSubmit "d3";
            ClickSubmit "d4"; ClickInsertExample; ClickSubmit "d5"; ClickSubmit "d6"]);
    [discriminate | reflexivity].
Defined.

Lemma collect_snd l a b :
  snd (fold_left
         (fun acc res =>
            if isFinal res then (fst acc, snd acc ++ alternative res)
            else (fst acc ++ alternative res, snd acc))
         l (a, b))
  = b ++ fold_right String.append "" (map alternative (filter isFinal l)).
Proof.
  revert a b. induction l as [|r l IH]; intros a b; cbn [fold_left filter].
  - cbn. now rewrite append_empty_r.
  - destruct (isFinal r); cbn [fst snd map fold_right]; rewrite IH.
    + now rewrite append_assoc.
    + reflexivity.
Qed.

(** X15.  A recognition event changes nothing but the transcript, and that
    only through its final results: their texts, from [resultIndex] on, are
    put together in order and added after the old transcript and one space.
    Interim results, and final results with no text, leave the state as it
    is. *)
Theorem onresult_appends_final_text (resultIndex : nat)
    (results : list SpeechResult) (st : Sim.State) :
  onresult resultIndex results st
  = Sim.mkState (Sim.currentIdx st) (Sim.listening st)
      (if JsString.truthy (finalText resultIndex results)
       then Sim.transcript st ++ " " ++ finalText resultIndex results
       else Sim.transcript st)
      (Sim.history st)
  /\ (finalText resultIndex results = "" ->
      onresult resultIndex results st = st).
Proof.
  assert (E : snd (collectResults resultIndex results) = finalText resultIndex results).
  { unfold collectResults, finalText. now rewrite collect_snd. }
  unfold onresult. rewrite E. split; [reflexivity|].
  intros ->. now destruct st.
Qed.

(** X15 at an event that holds interim results only. *)
Lemma onresult_appends_final_text_witness :
  onresult 0 [mkSpeechResult false "I imple"; mkSpeechResult false "mented"]
    (Sim.mkState 1 true "so far" [])
  = Sim.mkState 1 true "so far" [].
Proof.
  apply (proj2 (onresult_appends_final_text 0
                  [mkSpeechResult false "I imple"; mkSpeechResult false "mented"]
                  (Sim.mkState 1 true "so far" []))).
  reflexivity.
Defined.

(** X16.  Submit does not look at what it submits: pressed twice in a row
    it records two answers, and the second is the empty transcript, with
    no words, no fillers and one hit per empty-string keyword, taken
    against the question that follows (or the last one). *)
Theorem double_submit_records_empty_answer (questions : list Question.t)
    (now1 now2 : string) (st : Sim.State) :
  inRange questions st ->
  exists st1 st2 q1 q2,
    step questions (ClickSubmit now1) st = Some st1
    /\ step questions (ClickSubmit now2) st1 = Some st2
    /\ questionAt questions (Sim.currentIdx st) = Some q1
    /\ questionAt questions (Sim.currentIdx st1) = Some q2
    /\ Sim.history st2
       = (Sim.history st
          ++ [Entry.mk (Question.text q1) (Sim.transcript st)
                (score (scoreAnswer (Sim.transcript st) (Question.keywords q1)))
                (scoreAnswer (Sim.transcript st) (Question.keywords q1)) now1;
              Entry.mk (Question.text q2) ""
                (score (scoreAnswer "" (Question.keywords q2)))
                (scoreAnswer "" (Question.keywords q2)) now2])%list
    /\ wordCount (scoreAnswer "" (Question.keywords q2)) = 0%Z
    /\ fillerCount (scoreAnswer "" (Question.keywords q2)) = 0%Z
    /\ hits (scoreAnswer "" (Question.keywords q2))
       = Z.of_nat (count_occ string_dec (Question.keywords q2) "").
Proof.
  intros H.
  destruct (questionAt_inRange questions _ H) as (q1 & E1 & _).
  assert (H1 : (0 <= Z.min (Z.of_nat (List.length questions) - 1)
                      (Sim.currentIdx st + 1)
                < Z.of_nat (List.length questions))%Z)
    by (unfold inRange in H; lia).
  destruct (questionAt_inRange questions _ H1) as (q2 & E2 & _).
  eexists. eexists. exists q1, q2.
  cbn [step]. unfold submitAnswer.
  cbn [stopListening Sim.currentIdx Sim.transcript Sim.history].
  rewrite E1. split; [reflexivity|].
  cbn [stopListening Sim.currentIdx Sim.transcript Sim.history].
  rewrite E2. split; [reflexivity|].
  split; [reflexivity|]. split; [reflexivity|].
  cbn [Sim.history]. rewrite <- app_assoc. split; [reflexivity|].
  apply scoreAnswer_empty_transcript_counts.
Qed.

(** X16 on the default questions, from the start. *)
Lemma double_submit_records_empty_answer_witness :
  exists st1 st2 q1 q2,
    step DEFAULT_QUESTIONS (ClickSubmit "d1")
      (Sim.mkState 0 false "I use React and Expo" []) = Some st1
    /\ step DEFAULT_QUESTIONS (ClickSubmit "d2") st1 = Some st2
    /\ questionAt DEFAULT_QUESTIONS 0 = Some q1
    /\ questionAt DEFAULT_QUESTIONS (Sim.currentIdx st1) = Some q2
    /\ Sim.history st2
       = ([]
          ++ [Entry.mk (Question.text q1) "I use React and Expo"
                (score (scoreAnswer "I use React and Expo" (Question.keywords q1)))
                (scoreAnswer "I use React and Expo" (Question.keywords q1)) "d1";
              Entry.mk (Question.text q2) ""
                (score (scoreAnswer "" (Question.keywords q2)))
                (scoreAnswer "" (Question.keywords q2)) "d2"])%list
    /\ wordCount (scoreAnswer "" (Question.keywords q2)) = 0%Z
    /\ fillerCount (scoreAnswer "" (Question.keywords q2)) = 0%Z
    /\ hits (scoreAnswer "" (Question.keywords q2))
       = Z.of_nat (count_occ string_dec (Question.keywords q2) "").
Proof.
  apply (double_submit_records_empty_answer DEFAULT_QUESTIONS "d1" "d2"
           (Sim.mkState 0 false "I use React and Expo" [])).
  unfold inRange. cbn. lia.
Defined.
End SimulatorFacts.

(** * Properties of the report *)
Section ReportFacts.
Local Open Scope Z_scope.

Lemma reportEntries_questions split idx y history c :
  20 <= y <= 270 ->
  In c (reportEntries split idx y history) ->
  forall i h x y', c = TextAt (QuestionLine i h) x y' -> x = 14 /\ 20 <= y' <= 270.
Proof.
  revert idx y. induction history as [|e rest IH]; intros idx y Hy I i h x y' E.
  - destruct I.
  - cbn [reportEntries] in I. apply in_app_or in I as [I|I].
    + cbn in I. subst c.
      destruct I as [I|[I|[I|[I|[I|[]]]]]]; try discriminate I.
      injection I as _ _ <- <-. split; [reflexivity | exact Hy].
    + set (y3 := y + 6 + Z.of_nat
                  (List.length (split ("A: " ++ Entry.transcript e)%string 180)) * 6
                 + 10) in *.
      destruct (Z.gtb_spec y3 270) as [G|G].
      * destruct I as [I|I]; [congruence|].
        eapply (IH (S idx) 20); [lia | exact I | exact E].
      * eapply (IH (S idx) y3); [unfold y3; lia | exact I | exact E].
Qed.

(** X17.  In the report every question line is printed at the left margin
    14 with its height between 20 and 270: an entry never starts below the
    bottom margin, however long the answers before it were. *)
Theorem report_question_lines_on_page (split : string -> Z -> list string)
    (history : list Entry.t) (i : nat) (h : Entry.t) (x y : Z) :
  In (TextAt (QuestionLine i h) x y) (downloadReport split history) ->
  x = 14 /\ 20 <= y <= 270.
Proof.
  unfold downloadReport. intros I.
  apply in_app_or in I as [I|I].
  - cbn in I. repeat (destruct I as [I|I]; [discriminate I|]). destruct I.
  - apply in_app_or in I as [I|I].
    + eapply (reportEntries_questions split 0 44); [lia | exact I | reflexivity].
    + cbn in I. destruct I as [I|[]]. discriminate I.
Qed.

(** X17 at a history of one entry. *)
Lemma report_question_lines_on_page_witness :
  (14 = 14 /\ 20 <= 44 <= 270)%Z.
Proof.
  apply (report_question_lines_on_page (fun s _ => [s])
           [Entry.mk "Q" "A" (ofZ 50) (scoreAnswer "A" []) "d"] 0
           (Entry.mk "Q" "A" (ofZ 50) (scoreAnswer "A" []) "d")).
  cbn. do 6 right. left. reflexivity.
Defined.

Lemma reportEntries_pages split idx y history :
  (List.length (filter isAddPage (reportEntries split idx y history))
   <= List.length history)%nat
  /\ (y + fold_right (fun h acc => entryHeight split h + acc) 0 history <= 270 ->
      filter isAddPage (reportEntries split idx y history) = []).
Proof.
  revert idx y. induction history as [|e rest IH]; intros idx y.
  - cbn. split; [lia | reflexivity].
  - cbn [reportEntries]. rewrite filter_app. cbn [filter isAddPage app fold_right].
    unfold entryHeight at 1.
    set (n := Z.of_nat (List.length (split ("A: " ++ Entry.transcript e)%string 180))).
    assert (0 <= n) by (unfold n; lia).
    assert (P : forall l : list Entry.t,
              0 <= fold_right (fun h acc => entryHeight split h + acc) 0 l).
    { induction l as [|a l IHl]; cbn; [lia|]. unfold entryHeight at 1. lia. }
    specialize (P rest).
    destruct (Z.gtb_spec (y + 6 + n * 6 + 10) 270) as [G|G].
    + cbn [filter isAddPage List.length]. destruct (IH (S idx) 20) as [L _].
      split; [lia|]. intros B. exfalso. lia.
    + destruct (IH (S idx) (y + 6 + n * 6 + 10)) as [L F].
      split; [cbn [List.length]; lia|]. intros B. apply F. lia.
Qed.

(** X18.  The report adds at most one page per entry, and none at all when
    the entries fit: if 44 plus the heights of all entries (16 and 6 a
    line of answer each) is at most 270, there is no [addPage] call. *)
Theorem report_pages (split : string -> Z -> list string) (history : list Entry.t) :
  (List.length (filter isAddPage (downloadReport split history))
   <= List.length history)%nat
  /\ (44 + fold_right (fun h acc => entryHeight split h + acc) 0 history <= 270 ->
      filter isAddPage (downloadReport split history) = []).
Proof.
  unfold downloadReport. rewrite !filter_app. cbn [filter isAddPage app].
  rewrite app_nil_r. apply reportEntries_pages.
Qed.

(** X18 at a history of two short answers. *)
Lemma report_pages_witness :
  filter isAddPage
    (downloadReport (fun s _ => [s])
       [Entry.mk "Q1" "A1" (ofZ 50) (scoreAnswer "A1" []) "d1";
        Entry.mk "Q2" "A2" (ofZ 50) (scoreAnswer "A2" []) "d2"]) = [].
Proof.
  apply (proj2 (report_pages (fun s _ => [s])
                  [Entry.mk "Q1" "A1" (ofZ 50) (scoreAnswer "A1" []) "d1";
                   Entry.mk "Q2" "A2" (ofZ 50) (scoreAnswer "A2" []) "d2"])).
  vm_compute. discriminate.
Defined.
End ReportFacts.
